(** * Captions review service: the flag signer, the time formatter and the
      video-id extractor of [src/index.ts]

    Definitions come first, in the order the program needs them:
    - [Str]      the string primitives ([split], [padStart], [trim]);
    - [Dec]      decimal numerals;
    - [Sha256]   [createHmac("sha256", key).update(msg).digest("hex")] of
                 [node:crypto] (FIPS 180-4 and RFC 2104);
    - [Num]      the binary64 numbers of the language with [/], [*], [%],
                 [Math.floor], [String(n)] and [Number(s)];
    - [Regex]    the backtracking matcher behind [content.match(/.../)];
    - [Js]       values, thrown errors and [process.env];
    - [parseYouTubeId], [createFlagId], [formatTime] and the [POST] and
      [DELETE] handlers of the flags, over the interface of the record
      store.
    The properties follow: test vectors, the lemmas on each layer, and the
    statements on the program. *)

From Stdlib Require Import ZArith QArith Qpower Qfield Qround Qabs Qcanon Lia Lqa.
From Stdlib Require Import String Ascii List.
From Stdlib Require Import PrimFloat FloatOps SpecFloat.
From stdpp Require Import base option gmap strings.
Import ListNotations.

Local Open Scope string_scope.
Local Open Scope Z_scope.

(** ** Strings *)

Module Str.

(** Strings are sequences of bytes (the UTF-8 form of the script string);
    every separator, digit and pad character the program handles is ASCII,
    so splitting and comparison agree with the code-unit view. *)

Definition hyphen : ascii := "-"%char.

(** [s.split(sep)] for a one-character separator: never empty, one more
    part than there are separators. *)
Fixpoint split (sep : ascii) (s : string) : list string :=
  match s with
  | EmptyString => [EmptyString]
  | String c s' =>
      if Ascii.eqb c sep then EmptyString :: split sep s'
      else match split sep s' with
           | part :: parts => String c part :: parts
           | [] => [String c EmptyString]
           end
  end.

Fixpoint contains (c : ascii) (s : string) : bool :=
  match s with
  | EmptyString => false
  | String d s' => Ascii.eqb d c || contains c s'
  end.

Fixpoint repeat (c : ascii) (n : nat) : string :=
  match n with
  | O => EmptyString
  | S n' => String c (repeat c n')
  end.

(** [s.padStart(n, c)] for a one-character filler. *)
Definition padStart (n : nat) (c : ascii) (s : string) : string :=
  String.append (repeat c (n - String.length s)) s.

Fixpoint all (p : ascii -> bool) (s : string) : bool :=
  match s with
  | EmptyString => true
  | String c s' => p c && all p s'
  end.

Definition bytes (s : string) : list Z :=
  List.map (fun c => Z.of_N (N_of_ascii c)) (list_ascii_of_string s).

Definition of_bytes (bs : list Z) : string :=
  string_of_list_ascii (List.map (fun b => ascii_of_N (Z.to_N b)) bs).

Fixpoint rev_onto (s acc : string) : string :=
  match s with
  | EmptyString => acc
  | String c s' => rev_onto s' (String c acc)
  end.

Definition rev (s : string) : string := rev_onto s EmptyString.

Fixpoint strip_prefix (p s : string) : option string :=
  match p, s with
  | EmptyString, _ => Some s
  | String a p', String b s' => if Ascii.eqb a b then strip_prefix p' s' else None
  | String _ _, EmptyString => None
  end.

Fixpoint strip_any (ps : list string) (s : string) : option string :=
  match ps with
  | [] => None
  | p :: ps' =>
      match strip_prefix p s with
      | Some r => Some r
      | None => strip_any ps' s
      end
  end.

Fixpoint span (p : ascii -> bool) (s : string) : string * string :=
  match s with
  | EmptyString => (EmptyString, EmptyString)
  | String c s' =>
      if p c then let '(a, b) := span p s' in (String c a, b)
      else (EmptyString, s)
  end.

(** The white space and line terminator code points of the language
    (what [trim], [Number] and the [\s] class of a pattern skip), as the
    byte sequences that encode them. *)
Definition whitespace : list string :=
  List.map of_bytes
    [ [9]; [10]; [11]; [12]; [13]; [32]; [194; 160]; [225; 154; 128];
      [226; 128; 128]; [226; 128; 129]; [226; 128; 130]; [226; 128; 131];
      [226; 128; 132]; [226; 128; 133]; [226; 128; 134]; [226; 128; 135];
      [226; 128; 136]; [226; 128; 137]; [226; 128; 138]; [226; 128; 168];
      [226; 128; 169]; [226; 128; 175]; [226; 129; 159]; [227; 128; 128];
      [239; 187; 191] ].

Fixpoint trim_fuel (ws : list string) (n : nat) (s : string) : string :=
  match n with
  | O => s
  | S n' =>
      match strip_any ws s with
      | Some r => trim_fuel ws n' r
      | None => s
      end
  end.

Definition trimStart (s : string) : string :=
  trim_fuel whitespace (String.length s) s.

Definition trimEnd (s : string) : string :=
  rev (trim_fuel (List.map rev whitespace) (String.length s) (rev s)).

Definition trim (s : string) : string := trimEnd (trimStart s).

End Str.

(** ** Decimal digits *)

Module Dec.

Definition digit_char (d : Z) : ascii := ascii_of_N (Z.to_N (48 + d)).

Definition digit_val (c : ascii) : option Z :=
  let n := Z.of_N (N_of_ascii c) in
  if (48 <=? n) && (n <=? 57) then Some (n - 48) else None.

Definition is_digit (c : ascii) : bool :=
  match digit_val c with Some _ => true | None => false end.

Fixpoint digits (fuel : nat) (n : Z) (acc : string) : string :=
  match fuel with
  | O => acc
  | S fuel' =>
      let acc' := String (digit_char (n mod 10)) acc in
      if n / 10 =? 0 then acc' else digits fuel' (n / 10) acc'
  end.

(** The decimal numeral of a natural number, without leading zeros. *)
Definition of_nat_Z (n : Z) : string := digits (S (Z.to_nat (Z.log2 n))) n EmptyString.

(** The value of a run of decimal digits read left to right. *)
Fixpoint value (s : string) (acc : Z) : Z :=
  match s with
  | EmptyString => acc
  | String c s' =>
      match digit_val c with
      | Some d => value s' (acc * 10 + d)
      | None => acc
      end
  end.

(** The signed decimal numeral of an integer. *)
Definition of_Z (z : Z) : string :=
  if z <? 0 then String Str.hyphen (of_nat_Z (- z)) else of_nat_Z z.

End Dec.

(** ** HMAC-SHA256 with a hexadecimal digest *)

Module Sha256.

Definition w32 (x : Z) : Z := x mod 2 ^ 32.
Definition add32 (x y : Z) : Z := w32 (x + y).
Definition rotr (n x : Z) : Z :=
  Z.lor (Z.shiftr x n) (w32 (Z.shiftl x (32 - n))).

Definition Ch (x y z : Z) : Z := Z.lxor (Z.land x y) (Z.land (Z.lnot x) z).
Definition Maj (x y z : Z) : Z :=
  Z.lxor (Z.lxor (Z.land x y) (Z.land x z)) (Z.land y z).
Definition Sigma0 (x : Z) : Z := Z.lxor (Z.lxor (rotr 2 x) (rotr 13 x)) (rotr 22 x).
Definition Sigma1 (x : Z) : Z := Z.lxor (Z.lxor (rotr 6 x) (rotr 11 x)) (rotr 25 x).
Definition sigma0 (x : Z) : Z := Z.lxor (Z.lxor (rotr 7 x) (rotr 18 x)) (Z.shiftr x 3).
Definition sigma1 (x : Z) : Z := Z.lxor (Z.lxor (rotr 17 x) (rotr 19 x)) (Z.shiftr x 10).

Definition K : list Z :=
  [ 1116352408; 1899447441; 3049323471; 3921009573; 961987163; 1508970993;
    2453635748; 2870763221; 3624381080; 310598401; 607225278; 1426881987;
    1925078388; 2162078206; 2614888103; 3248222580; 3835390401; 4022224774;
    264347078; 604807628; 770255983; 1249150122; 1555081692; 1996064986;
    2554220882; 2821834349; 2952996808; 3210313671; 3336571891; 3584528711;
    113926993; 338241895; 666307205; 773529912; 1294757372; 1396182291;
    1695183700; 1986661051; 2177026350; 2456956037; 2730485921; 2820302411;
    3259730800; 3345764771; 3516065817; 3600352804; 4094571909; 275423344;
    430227734; 506948616; 659060556; 883997877; 958139571; 1322822218;
    1537002063; 1747873779; 1955562222; 2024104815; 2227730452; 2361852424;
    2428436474; 2756734187; 3204031479; 3329325298 ].

Record state := State { ha : Z; hb : Z; hc : Z; hd : Z; he : Z; hf : Z; hg : Z; hh : Z }.

Definition H0 : state :=
  State 1779033703 3144134277 1013904242 2773480762
        1359893119 2600822924 528734635 1541459225.

(** The padded message: the bytes, 0x80, zeros up to 56 modulo 64, and the
    bit length on eight bytes, most significant first. *)
Definition be_bytes (n : nat) (x : Z) : list Z :=
  List.map (fun i => Z.shiftr x (8 * Z.of_nat i) mod 256) (List.rev (List.seq 0 n)).

Definition pad (msg : list Z) : list Z :=
  let l := Z.of_nat (List.length msg) in
  let k := (55 - l) mod 64 in
  msg ++ [128] ++ List.repeat 0 (Z.to_nat k) ++ be_bytes 8 (8 * l).

Fixpoint be_word (bs : list Z) (acc : Z) : Z :=
  match bs with
  | [] => acc
  | b :: bs' => be_word bs' (acc * 256 + b)
  end.

Fixpoint words (n : nat) (bs : list Z) : list Z :=
  match n with
  | O => []
  | S n' => be_word (firstn 4 bs) 0 :: words n' (skipn 4 bs)
  end.

(** The message schedule, most recent word first. *)
Fixpoint schedule (n : nat) (w : list Z) : list Z :=
  match n with
  | O => w
  | S n' =>
      let wt := add32 (add32 (sigma1 (nth 1 w 0)) (nth 6 w 0))
                      (add32 (sigma0 (nth 14 w 0)) (nth 15 w 0)) in
      schedule n' (wt :: w)
  end.

Definition round (s : state) (kw : Z * Z) : state :=
  let t1 := add32 (add32 (add32 (hh s) (Sigma1 (he s))) (Ch (he s) (hf s) (hg s)))
                  (add32 (fst kw) (snd kw)) in
  let t2 := add32 (Sigma0 (ha s)) (Maj (ha s) (hb s) (hc s)) in
  State (add32 t1 t2) (ha s) (hb s) (hc s) (add32 (hd s) t1) (he s) (hf s) (hg s).

Definition compress (h : state) (block : list Z) : state :=
  let w := List.rev (schedule 48 (List.rev (words 16 block))) in
  let s := fold_left round (combine K w) h in
  State (add32 (ha h) (ha s)) (add32 (hb h) (hb s)) (add32 (hc h) (hc s))
        (add32 (hd h) (hd s)) (add32 (he h) (he s)) (add32 (hf h) (hf s))
        (add32 (hg h) (hg s)) (add32 (hh h) (hh s)).

Fixpoint blocks (n : nat) (h : state) (bs : list Z) : state :=
  match n with
  | O => h
  | S n' => blocks n' (compress h (firstn 64 bs)) (skipn 64 bs)
  end.

Definition digest_bytes (h : state) : list Z :=
  flat_map (be_bytes 4) [ha h; hb h; hc h; hd h; he h; hf h; hg h; hh h].

Definition sha256 (msg : list Z) : list Z :=
  let p := pad msg in
  digest_bytes (blocks (List.length p / 64) H0 p).

(** RFC 2104 with a 64-byte block. *)
Definition hmac_key (key : list Z) : list Z :=
  let k := if (64 <? List.length key)%nat then sha256 key else key in
  k ++ List.repeat 0 (64 - List.length k).

Definition hmac (key msg : list Z) : list Z :=
  let k := hmac_key key in
  sha256 (List.map (Z.lxor 92) k ++ sha256 (List.map (Z.lxor 54) k ++ msg)).

Definition hex_alphabet : list ascii :=
  list_ascii_of_string "0123456789abcdef".

Definition hex_digit (d : Z) : ascii := nth (Z.to_nat d) hex_alphabet "0"%char.

Fixpoint hex (bs : list Z) : string :=
  match bs with
  | [] => EmptyString
  | b :: bs' => String (hex_digit (b / 16)) (String (hex_digit (b mod 16)) (hex bs'))
  end.

(** [createHmac("sha256", key).update(msg).digest("hex")]. *)
Definition hmac_hex (key msg : string) : string :=
  hex (hmac (Str.bytes key) (Str.bytes msg)).

End Sha256.

(** ** Numbers *)

Module Num.

(** A number of the language is an IEEE 754 binary64 value. A finite one
    is carried by the rational it denotes; every operation computes the
    exact result and rounds it to the nearest representable value, ties to
    even. The two zeros are identified: the program prints both as [0] and
    never divides by a computed value. *)
Inductive number : Type :=
| NaN
| Infinity (neg : bool)
| Finite (q : Q).

(** An integer as a number; it is one when it is representable, as every
    integer below [2^53] in magnitude is. *)
Definition of_Z (z : Z) : number := Finite (inject_Z z).

Definition pow2 (z : Z) : Q := Qpower (2 # 1) z.
Definition pow10 (z : Z) : Q := Qpower (10 # 1) z.

Definition Qltb (x y : Q) : bool := negb (Qle_bool y x).

(** [floor (log2 a)] for [0 < a]. *)
Definition ilog2 (a : Q) : Z :=
  let l := Z.log2 (Qnum a) - Z.log2 (Zpos (Qden a)) in
  if Qle_bool (pow2 l) a then l else l - 1.

(** The integer nearest to [x], the even one of two. *)
Definition round_half_even (x : Q) : Z :=
  let f := Qfloor x in
  match Qcompare (x - inject_Z f) (1 # 2) with
  | Lt => f
  | Gt => f + 1
  | Eq => if Z.even f then f else f + 1
  end.

(** Rounding of a non-negative rational to 53 significant bits, with the
    exponent bounded below (gradual underflow) and unbounded above. *)
Definition round_pos (a : Q) : Q :=
  let e := Z.max (ilog2 a) (-1022) in
  let u := pow2 (e - 52) in
  inject_Z (round_half_even (a / u)) * u.

(** The number nearest to a rational, ties to even; an infinity from half
    a unit below [2^1024] on. *)
Definition rn (q : Q) : number :=
  let r := round_pos (Qabs q) in
  if Qle_bool (pow2 1024) r then Infinity (Qltb q 0)
  else Finite (Qred (if Qltb q 0 then - r else r)).

Definition is_neg (x : number) : bool :=
  match x with
  | NaN => false
  | Infinity neg => neg
  | Finite q => Qltb q 0
  end.

Definition is_zero (x : number) : bool :=
  match x with Finite q => Qeq_bool q 0 | _ => false end.

(** [x * y] *)
Definition mul (x y : number) : number :=
  match x, y with
  | NaN, _ | _, NaN => NaN
  | Finite p, Finite q => rn (p * q)
  | _, _ => if is_zero x || is_zero y then NaN
            else Infinity (xorb (is_neg x) (is_neg y))
  end.

(** [x / y] *)
Definition div (x y : number) : number :=
  match x, y with
  | NaN, _ | _, NaN => NaN
  | Infinity _, Infinity _ => NaN
  | Infinity _, Finite _ => Infinity (xorb (is_neg x) (is_neg y))
  | Finite _, Infinity _ => Finite 0
  | Finite p, Finite q =>
      if Qeq_bool q 0 then (if Qeq_bool p 0 then NaN else Infinity (is_neg x))
      else rn (p / q)
  end.

(** Rounding toward zero. *)
Definition Qtrunc (q : Q) : Z := if Qltb q 0 then Qceiling q else Qfloor q.

(** [x % y]: the remainder of the truncating division, exact. *)
Definition rem (x y : number) : number :=
  match x, y with
  | NaN, _ | _, NaN => NaN
  | Infinity _, _ => NaN
  | Finite _, Infinity _ => x
  | Finite p, Finite q =>
      if Qeq_bool q 0 then NaN
      else Finite (Qred (p - q * inject_Z (Qtrunc (p / q))))
  end.

(** [Math.floor(x)] *)
Definition floor (x : number) : number :=
  match x with
  | Finite q => Finite (inject_Z (Qfloor q))
  | _ => x
  end.

(** *** [Number::toString] *)

(** [floor (log10 a)] for [0 < a]. *)
Definition ilog10 (a : Q) : Z :=
  let c := (ilog2 a * 1233) / 4096 in
  if Qle_bool (pow10 (c + 1)) a then c + 1
  else if Qle_bool (pow10 c) a then c
  else c - 1.

(** [x === y] on numbers: [NaN] equals nothing. *)
Definition eqb (x y : number) : bool :=
  match x, y with
  | Finite p, Finite q => Qeq_bool p q
  | Infinity a, Infinity b => Bool.eqb a b
  | _, _ => false
  end.

(** The shortest digit string [s] of [k] digits with [s * 10^(n-k)]
    rounding to [q]; the closest one when two qualify. At every length the
    two candidates around [q] are tested, from [k] on for [fuel] lengths.
    Seventeen digits tell every binary64 value from its neighbours, so a
    search from one digit with fuel 17 ends on a tested candidate; the
    answer without fuel is not reached. *)
Fixpoint shortest (fuel : nat) (k : Z) (n : Z) (q : Q) : Z * Z * Z :=
  let g := pow10 (n - k) in
  let lo := Qfloor (q / g) in
  let hi := lo + 1 in
  let ok s := eqb (rn (inject_Z s * g)) (Finite q) in
  let pick s := if s =? 10 ^ k then (10 ^ (k - 1), k, n + 1) else (s, k, n) in
  match fuel with
  | O => pick lo
  | S fuel' =>
      match ok lo, ok hi with
      | true, true =>
          match Qcompare (q - inject_Z lo * g) (inject_Z hi * g - q) with
          | Lt => pick lo
          | Gt => pick hi
          | Eq => pick (if Z.even lo then lo else hi)
          end
      | true, false => pick lo
      | false, true => pick hi
      | false, false => shortest fuel' (k + 1) n q
      end
  end.

Definition is_safe_integer (q : Q) : bool :=
  Qeq_bool q (inject_Z (Qfloor q)) && (Z.abs (Qfloor q) <=? 2 ^ 53 - 1).

Definition substring_from (i : nat) (s : string) : string :=
  String.substring i (String.length s - i) s.

(** The digits of [q] laid out as the language prints a number: [k] digits
    [s] and the decimal exponent [n], in positional notation when
    [-6 < n <= 21] and in exponent notation otherwise. *)
Definition toString_digits (q : Q) : string :=
  let '(s, k, n) := shortest 17 1 (ilog10 q + 1) q in
  let ds := Dec.of_nat_Z s in
  if (k <=? n) && (n <=? 21) then
    String.append ds (Str.repeat "0" (Z.to_nat (n - k)))
  else if (0 <? n) && (n <=? 21) then
    String.append (String.substring 0 (Z.to_nat n) ds)
      (String "." (substring_from (Z.to_nat n) ds))
  else if (-6 <? n) && (n <=? 0) then
    String.append "0." (String.append (Str.repeat "0" (Z.to_nat (- n))) ds)
  else
    let e := n - 1 in
    let mant := if k =? 1 then ds
                else String.append (String.substring 0 1 ds)
                       (String "." (substring_from 1 ds)) in
    String.append mant
      (String "e" (String (if e <? 0 then "-"%char else "+"%char)
                          (Dec.of_nat_Z (Z.abs e)))).

(** A positive number prints as its shortest digits; for a safe integer
    these are the digits of its decimal numeral, which is what this
    definition answers directly (see [toString_digits_integers]). *)
Definition toString_pos (q : Q) : string :=
  if is_safe_integer q then Dec.of_nat_Z (Qfloor q) else toString_digits q.

(** [String(x)], which is also what a template literal inserts. *)
Definition toString (x : number) : string :=
  match x with
  | NaN => "NaN"
  | Infinity false => "Infinity"
  | Infinity true => "-Infinity"
  | Finite q =>
      if Qeq_bool q 0 then "0"
      else if Qltb q 0 then String Str.hyphen (toString_pos (- q))
      else toString_pos q
  end.

(** *** [StringToNumber] *)

Definition digit_in (base : Z) (c : ascii) : option Z :=
  let n := Z.of_N (N_of_ascii c) in
  let v := if (48 <=? n) && (n <=? 57) then Some (n - 48)
           else if (97 <=? n) && (n <=? 122) then Some (n - 87)
           else if (65 <=? n) && (n <=? 90) then Some (n - 55)
           else None in
  match v with
  | Some d => if d <? base then Some d else None
  | None => None
  end.

Fixpoint value_in (base : Z) (s : string) (acc : Z) : option Z :=
  match s with
  | EmptyString => Some acc
  | String c s' =>
      match digit_in base c with
      | Some d => value_in base s' (acc * base + d)
      | None => None
      end
  end.

(** [0x], [0o] and [0b] literals: no sign, at least one digit. *)
Definition nondecimal (t : string) : option Z :=
  match t with
  | String "0" (String x (String c rest)) =>
      let digits := String c rest in
      if Ascii.eqb x "x" || Ascii.eqb x "X" then value_in 16 digits 0
      else if Ascii.eqb x "o" || Ascii.eqb x "O" then value_in 8 digits 0
      else if Ascii.eqb x "b" || Ascii.eqb x "B" then value_in 2 digits 0
      else None
  | _ => None
  end.

Definition sign_of (s : string) : bool * string :=
  match s with
  | String "-" r => (true, r)
  | String "+" r => (false, r)
  | _ => (false, s)
  end.

Definition all_digits (s : string) : bool :=
  negb (String.eqb s EmptyString) && Str.all Dec.is_digit s.

Definition exponent (s : string) : option Z :=
  match s with
  | EmptyString => Some 0
  | String c r =>
      if Ascii.eqb c "e" || Ascii.eqb c "E" then
        let '(neg, ds) := sign_of r in
        if all_digits ds
        then Some (if neg then - Dec.value ds 0 else Dec.value ds 0)
        else None
      else None
  end.

Definition unsigned_decimal (s : string) : option Q :=
  let '(ip, r1) := Str.span Dec.is_digit s in
  let '(fp, r2) := match r1 with
                   | String "." r => Str.span Dec.is_digit r
                   | _ => (EmptyString, r1)
                   end in
  if String.eqb ip EmptyString && String.eqb fp EmptyString then None
  else match exponent r2 with
       | Some e =>
           Some (inject_Z (Dec.value (String.append ip fp) 0)
                 * pow10 (e - Z.of_nat (String.length fp)))%Q
       | None => None
       end.

(** [Number(s)] for a string [s]. *)
Definition ofString (s : string) : number :=
  let t := Str.trim s in
  if String.eqb t EmptyString then Finite 0
  else match nondecimal t with
       | Some z => rn (inject_Z z)
       | None =>
           let '(neg, body) := sign_of t in
           if String.eqb body "Infinity" then Infinity neg
           else match unsigned_decimal body with
                | Some q => rn (if neg then - q else q)
                | None => NaN
                end
       end.

End Num.

(** ** Patterns *)

Module Regex.

(** The fragment of the pattern language the program uses, over bytes. *)
Inductive regex : Type :=
| Lit (s : string)             (* a literal sequence *)
| Class (p : ascii -> bool)    (* one character of a class *)
| AnyOf (alts : list string)   (* one code point out of a set *)
| Seq (r1 r2 : regex)
| Opt (r : regex)              (* r?, greedy *)
| Star (r : regex)             (* r*, greedy *)
| Group (r : regex).           (* ( r ), the capture group *)

Definition Plus (r : regex) : regex := Seq r (Star r).

Definition orelse {A} (x : option A) (y : option A) : option A :=
  match x with Some _ => x | None => y end.

Definition consumed (s s' : string) : string :=
  String.substring 0 (String.length s - String.length s') s.

Section Matcher.
Context {A : Type}.

(** A matcher tries its alternatives in priority order and hands the rest
    of the input and the capture to its continuation; the first
    alternative whose continuation succeeds wins. *)
Definition cont : Type := string -> option string -> option A.
Definition matcher : Type := string -> option string -> cont -> option A.

Fixpoint alternatives (alts : list string) (s : string) (cap : option string)
         (k : cont) : option A :=
  match alts with
  | [] => None
  | a :: alts' =>
      orelse (match Str.strip_prefix a s with
              | Some s' => k s' cap
              | None => None
              end)
             (alternatives alts' s cap k)
  end.

(** The greedy repetition of a matcher: one more iteration first, then the
    continuation; an iteration that consumes nothing is refused. *)
Fixpoint star_loop (body : matcher) (k : cont) (n : nat) (s : string)
         (cap : option string) : option A :=
  match n with
  | O => k s cap
  | S n' =>
      orelse
        (body s cap
           (fun s' cap' =>
              if (String.length s' <? String.length s)%nat
              then star_loop body k n' s' cap' else None))
        (k s cap)
  end.

Fixpoint run (r : regex) (s : string) (cap : option string) (k : cont)
  : option A :=
  match r with
  | Lit p =>
      match Str.strip_prefix p s with
      | Some s' => k s' cap
      | None => None
      end
  | Class p =>
      match s with
      | String c s' => if p c then k s' cap else None
      | EmptyString => None
      end
  | AnyOf alts => alternatives alts s cap k
  | Seq r1 r2 => run r1 s cap (fun s' cap' => run r2 s' cap' k)
  | Opt r1 => orelse (run r1 s cap k) (k s cap)
  | Star r1 => star_loop (run r1) k (String.length s) s cap
  | Group r1 => run r1 s cap (fun s' _ => k s' (Some (consumed s s')))
  end.
End Matcher.

(** [s.match(r)] without the global flag: the leftmost match; the result
    is the capture group of that match, [None] for [null]. *)
Fixpoint search (r : regex) (s : string) : option (option string) :=
  orelse (run r s None (fun _ cap => Some cap))
         (match s with
          | EmptyString => None
          | String _ s' => search r s'
          end).

End Regex.

(** ** Values, results and the environment *)

Module Js.

(** The values that reach a coercion in the program: an array element or a
    destructured binding is a string or a number when present and
    [undefined] when absent. *)
Inductive value : Type :=
| Undefined
| Num (n : Num.number)
| Text (s : string).

(** [String(v)] *)
Definition ToString (v : value) : string :=
  match v with
  | Undefined => "undefined"
  | Num n => Num.toString n
  | Text s => s
  end.

(** [Number(v)] *)
Definition ToNumber (v : value) : Num.number :=
  match v with
  | Undefined => Num.NaN
  | Num n => n
  | Text s => Num.ofString s
  end.

(** [a === b] *)
Definition strict_eq (a b : value) : bool :=
  match a, b with
  | Undefined, Undefined => true
  | Num x, Num y => Num.eqb x y
  | Text x, Text y => String.eqb x y
  | _, _ => false
  end.

(** [parts[i]] *)
Definition index (parts : list string) (i : nat) : value :=
  match nth_error parts i with
  | Some s => Text s
  | None => Undefined
  end.

Definition index_num (ids : list Num.number) (i : nat) : value :=
  match nth_error ids i with
  | Some n => Num n
  | None => Undefined
  end.

(** A call either returns or throws an [Error] with a message. *)
Inductive Result (A : Type) : Type :=
| Ok (a : A)
| Throw (message : string).
Arguments Ok {A} a.
Arguments Throw {A} message.

(** [process.env] *)
Definition Env : Type := gmap string string.

End Js.
Import Js.

(** ** [index.ts] *)

Definition double_quote : ascii := ascii_of_N 34.
Definition single_quote : ascii := ascii_of_N 39.

Definition is_quote (c : ascii) : bool :=
  Ascii.eqb c double_quote || Ascii.eqb c single_quote.

(** The class [[a-zA-Z0-9_-]]. *)
Definition is_id_char (c : ascii) : bool :=
  let n := Z.of_N (N_of_ascii c) in
  ((97 <=? n) && (n <=? 122)) || ((65 <=? n) && (n <=? 90))
  || ((48 <=? n) && (n <=? 57)) || (n =? 95) || (n =? 45).

(** The pattern of [parseYouTubeId]: the literal [youtube:], then [\s*],
    then an optional quote (double or single), then the capture group
    [([a-zA-Z0-9_-]+)]. *)
Definition youtube_pattern : Regex.regex :=
  Regex.Seq (Regex.Lit "youtube:")
    (Regex.Seq (Regex.Star (Regex.AnyOf Str.whitespace))
       (Regex.Seq (Regex.Opt (Regex.Class is_quote))
          (Regex.Group (Regex.Plus (Regex.Class is_id_char))))).

(** [match[1]]: the capture group of a match, [undefined] had the group not
    taken part in it. *)
Definition group1 (m : option string) : value :=
  match m with
  | Some s => Text s
  | None => Undefined
  end.

Definition parseYouTubeId (content : string) : Result value :=
  match Regex.search youtube_pattern content with
  | None => Throw "YouTube ID not found in content"
  | Some m => Ok (group1 m)
  end.

Definition createFlagId (env : Env) (id : value) : Result string :=
  match env !! "FLAG_SECRET" with
  | None => Throw "FLAG_SECRET environment variable is not set"
  | Some secret =>
      if String.eqb secret EmptyString
      then Throw "FLAG_SECRET environment variable is not set"
      else Ok ("flag-" +:+ ToString id +:+ "-"
                 +:+ Sha256.hmac_hex secret (ToString id))
  end.

Definition n3600 : Num.number := Num.of_Z 3600.
Definition n60 : Num.number := Num.of_Z 60.
Definition n1000 : Num.number := Num.of_Z 1000.

Definition zero_char : ascii := "0"%char.

Definition formatTime (t : Num.number) : string :=
  let h := Str.padStart 2 zero_char (Num.toString (Num.floor (Num.div t n3600))) in
  let m := Str.padStart 2 zero_char
             (Num.toString (Num.floor (Num.div (Num.rem t n3600) n60))) in
  let s := Str.padStart 2 zero_char (Num.toString (Num.floor (Num.rem t n60))) in
  let ms := Str.padStart 3 zero_char
              (Num.toString (Num.floor (Num.rem (Num.mul t n1000) n1000))) in
  h +:+ ":" +:+ m +:+ ":" +:+ s +:+ "." +:+ ms.

(** *** The record store

    [./grist] is imported by the program and is not part of it: the two
    calls the handlers make are the operations of an interface, over any
    state of the store. *)

Record FlagRow : Type := { vtt : string; timestamp : string; text : string }.

Class Grist (S : Type) : Type := {
  addRecords : string -> list FlagRow -> S -> Result (list Num.number) * S;
  deleteRecords : string -> list Num.number -> S -> Result unit * S
}.

Record Params : Type :=
  { event : string; slug : string; lang : string; flagId : string }.

Record FlagBody : Type := { body_timestamp : Num.number; body_text : string }.

Section Handlers.
Context {S : Type} `{Grist S}.
Variable env : Env.

(** [POST /flags/:event/:slug/:lang]; the answer is the [flagId]. *)
Definition post_flags (params : Params) (body : FlagBody) (st : S)
  : Result string * S :=
  let row := {| vtt := event params +:+ "/" +:+ slug params +:+ "_"
                         +:+ lang params +:+ ".vtt";
                timestamp := formatTime (Num.div (body_timestamp body) n1000);
                text := body_text body |} in
  match addRecords "Flags" [row] st with
  | (Throw e, st') => (Throw e, st')
  | (Ok result, st') => (createFlagId env (index_num result 0), st')
  end.

(** [DELETE /flags/:event/:slug/:lang/:flagId]; [Ok tt] is [{ ok: true }]. *)
Definition delete_flags (params : Params) (st : S) : Result unit * S :=
  let parts := Str.split Str.hyphen (flagId params) in
  let id := index parts 1 in
  let signature := index parts 2 in
  match createFlagId env (Num (ToNumber id)) with
  | Throw e => (Throw e, st)
  | Ok token =>
      if negb (strict_eq signature (index (Str.split Str.hyphen token) 2))
      then (Throw "Invalid flag ID", st)
      else match deleteRecords "Flags" [ToNumber id] st with
           | (Throw e, st') => (Throw e, st')
           | (Ok _, st') => (Ok tt, st')
           end
  end.
End Handlers.

(** The first three statements of the [DELETE] handler on their own: the
    destructuring of the token and the comparison of the signatures. It
    answers the number the handler goes on to delete. *)
Definition verify (env : Env) (token : string) : Result Num.number :=
  let parts := Str.split Str.hyphen token in
  let id := index parts 1 in
  let signature := index parts 2 in
  match createFlagId env (Num (ToNumber id)) with
  | Throw e => Throw e
  | Ok minted =>
      if negb (strict_eq signature (index (Str.split Str.hyphen minted) 2))
      then Throw "Invalid flag ID"
      else Ok (ToNumber id)
  end.

(** The calls a store receives. *)
Inductive Call : Type :=
| AddRecords (table : string) (rows : list FlagRow)
| DeleteRecords (table : string) (ids : list Num.number).

(** Modelled from the spec: the record store of [./grist], which is not
    part of the program text. [addRecords(rows) -> [ids]] answers one fresh
    integer id per row, in the order of the rows, and
    [deleteRecords(ids) -> ok] succeeds; the state of this store is the
    list of the calls it received, so that a call is observable. *)
#[export] Instance trace_store : Grist (list Call) := {
  addRecords table rows st :=
    (Ok (List.map (fun i => Num.of_Z (Z.of_nat (List.length st + i)))
           (List.seq 1 (List.length rows))),
     List.app st [AddRecords table rows]);
  deleteRecords table ids st := (Ok tt, List.app st [DeleteRecords table ids])
}.

(** *** The content source

    [fs.readFileSync] and [fetch] are the two ways the program reads a
    document; both belong to the platform and are operations of an
    interface, over any state of the world. *)

(** What the program reads of a [Response]: [ok], [status], [statusText]
    and the outcome of [text()]. *)
Record Response : Type := {
  response_ok : bool;
  response_status : Num.number;
  response_statusText : string;
  response_text : Result string
}.

Class Content (W : Type) : Type := {
  readFileSync : string -> string -> W -> Result string * W;
  fetch : string -> W -> Result Response * W
}.

(** The answer of [GET /videos/:event/:slug/:lang]. *)
Record VideoInfo : Type :=
  { videoUrl : string; vttUrl : string; flaggingUrl : string }.

Section Documents.
Context {W : Type} `{Content W}.
Variable env : Env.

Definition getRawGitHubFile (repo branch file : string) (w : W)
  : Result string * W :=
  let remote :=
    let url := "https://raw.githubusercontent.com/" +:+ repo +:+ "/"
                 +:+ branch +:+ "/" +:+ file in
    match fetch url w with
    | (Throw e, w') => (Throw e, w')
    | (Ok response, w') =>
        if negb (response_ok response)
        then (Throw ("Failed to fetch " +:+ url +:+ ": "
                       +:+ Num.toString (response_status response) +:+ " "
                       +:+ response_statusText response), w')
        else (response_text response, w')
    end in
  match env !! "VIDEOS_PATH" with
  | Some dir =>
      if String.eqb dir EmptyString then remote
      else readFileSync (dir +:+ "/" +:+ file) "utf-8" w
  | None => remote
  end.

(** [GET /videos/:event/:slug/:lang]; the [flagId] field of the parameters
    is not part of this route and is not read. *)
Definition get_videos (params : Params) (w : W) : Result VideoInfo * W :=
  match getRawGitHubFile "creatorsgarten/videos" "refs/heads/main"
          ("data/videos/" +:+ event params +:+ "/" +:+ slug params +:+ ".md") w
  with
  | (Throw e, w') => (Throw e, w')
  | (Ok content, w') =>
      match parseYouTubeId content with
      | Throw e => (Throw e, w')
      | Ok youtubeId =>
          (Ok {| videoUrl := "https://www.youtube.com/watch?v=" +:+ ToString youtubeId;
                 vttUrl := "/captions/" +:+ event params +:+ "/" +:+ slug params
                             +:+ "/" +:+ lang params;
                 flaggingUrl := "/flags/" +:+ event params +:+ "/" +:+ slug params
                                  +:+ "/" +:+ lang params |}, w')
      end
  end.

(** [GET /captions/:event/:slug/:lang] *)
Definition get_captions (params : Params) (w : W) : Result string * W :=
  getRawGitHubFile "creatorsgarten/videos" "refs/heads/main"
    ("data/videos/" +:+ event params +:+ "/" +:+ slug params +:+ "_"
       +:+ lang params +:+ ".vtt") w.
End Documents.

(** The calls the world receives. *)
Inductive Read : Type :=
| ReadFile (path encoding : string)
| Fetch (url : string).

(** A world for examples: the documents it holds under a local path and
    under a url; a read of anything else fails (a missing file throws, a
    missing url answers 404). Its state is the list of the reads it
    received. *)
Record Library : Type := {
  local_files : gmap string string;
  remote_files : gmap string string
}.

Definition library_world (lib : Library) : Content (list Read) := {|
  readFileSync path encoding w :=
    (match local_files lib !! path with
     | Some content => Ok content
     | None => Throw "ENOENT: no such file or directory"
     end, List.app w [ReadFile path encoding]);
  fetch url w :=
    (Ok (match remote_files lib !! url with
         | Some content =>
             {| response_ok := true; response_status := Num.of_Z 200;
                response_statusText := "OK"; response_text := Ok content |}
         | None =>
             {| response_ok := false; response_status := Num.of_Z 404;
                response_statusText := "Not Found";
                response_text := Ok "404: Not Found" |}
         end), List.app w [Fetch url])
|}.

(** ** Vocabulary of the statements *)

Definition is_lower_hex (c : ascii) : bool :=
  let n := Z.of_N (N_of_ascii c) in
  ((48 <=? n) && (n <=? 57)) || ((97 <=? n) && (n <=? 102)).

Definition head_is (p : ascii -> bool) (s : string) : bool :=
  match s with
  | EmptyString => false
  | String c _ => p c
  end.

(** The server holds a secret: [FLAG_SECRET] is set and not empty. *)
Definition secret_of (env : Env) (secret : string) : Prop :=
  env !! "FLAG_SECRET" = Some secret /\ secret <> EmptyString.

(** The signature component of a token over the text of an id. *)
Definition sign (secret text : string) : string := Sha256.hmac_hex secret text.


(** A safe integer: below [2^53] in magnitude, where every integer is a
    number of the language and prints as its decimal numeral. *)
Definition safe_integer (z : Z) : Prop := Z.abs z <= 2 ^ 53 - 1.

(** [s] is the canonical decimal numeral of [z]: an optional minus sign,
    then digits without a leading zero (the single digit [0] apart), whose
    value is the magnitude of [z]. *)
Definition canonical_decimal (z : Z) (s : string) : Prop :=
  exists ds,
    s = (if z <? 0 then String Str.hyphen ds else ds)
    /\ ds <> EmptyString
    /\ Str.all Dec.is_digit ds = true
    /\ Dec.value ds 0 = Z.abs z
    /\ (head_is (Ascii.eqb zero_char) ds = true -> ds = "0").

(** How the handler ends once the token is verified. *)
Definition finish {S : Type} (r : Result unit * S) : Result unit * S :=
  match r with
  | (Throw e, st') => (Throw e, st')
  | (Ok _, st') => (Ok tt, st')
  end.

(** How the [POST] handler ends once the row is handed to the store. *)
Definition reply {S : Type} (env : Env) (r : Result (list Num.number) * S)
  : Result string * S :=
  match r with
  | (Throw e, st') => (Throw e, st')
  | (Ok result, st') => (createFlagId env (index_num result 0), st')
  end.

Definition env0 : Env := {[ "FLAG_SECRET" := "s3cret" ]}.

Definition params0 (token : string) : Params :=
  {| event := "bkkjs22"; slug := "intro"; lang := "en"; flagId := token |}.

(** The same token under another video path. *)
Definition other_path (token : string) : Params :=
  {| event := "other"; slug := "talk"; lang := "th"; flagId := token |}.

(** The token minted for the id 42 under the secret of [env0]. *)
Definition token42 : string := "flag-42-" +:+ sign "s3cret" "42".

(** The number a hardware binary64 value stands for, to compare the
    rounding of [Num] with the machine's on the constants of the program. *)
Definition of_float (f : PrimFloat.float) : Num.number :=
  match Prim2SF f with
  | S754_zero _ => Num.Finite 0
  | S754_infinity s => Num.Infinity s
  | S754_nan => Num.NaN
  | S754_finite s m e =>
      Num.Finite (Qred ((if s then -1 else 1) * inject_Z (Zpos m) * Num.pow2 e))
  end.

(** *** Occurrences of the video key *)

Fixpoint concat_all (ws : list string) : string :=
  match ws with
  | [] => EmptyString
  | w :: ws' => w +:+ concat_all ws'
  end.

Definition is_optional_quote (q : string) : Prop :=
  q = EmptyString \/ q = String double_quote EmptyString
  \/ q = String single_quote EmptyString.

(** [s] starts with the key, white space, an optional quote and the token
    [tok], the longest run of id characters there. *)
Definition key_value_here (s tok : string) : Prop :=
  exists ws q rest,
    s = "youtube:" +:+ concat_all ws +:+ q +:+ tok +:+ rest
    /\ List.Forall (fun w => List.In w Str.whitespace) ws
    /\ is_optional_quote q
    /\ tok <> EmptyString
    /\ Str.all is_id_char tok = true
    /\ head_is is_id_char rest = false.

(** The content holds the key with the token [tok] at offset [i]. *)
Definition occurrence_at (content : string) (i : nat) (tok : string) : Prop :=
  exists pre s, content = pre +:+ s /\ String.length pre = i /\ key_value_here s tok.

(** What the pattern matches at the start of [s], as a scanner. *)
Definition skip_quote (s : string) : string :=
  match s with
  | String c s' => if is_quote c then s' else s
  | EmptyString => s
  end.

Definition match_here (s : string) : option string :=
  match Str.strip_prefix "youtube:" s with
  | None => None
  | Some s1 =>
      let s3 := skip_quote (Str.trimStart s1) in
      if head_is is_id_char s3 then Some (fst (Str.span is_id_char s3)) else None
  end.

(** The content holds the key somewhere. *)
Definition has_key (content : string) : Prop :=
  exists pre post, content = pre +:+ "youtube:" +:+ post.

(** *** The pattern as a scanner *)

(** No white-space encoding is a prefix of another one. *)
Definition prefix_free (ps : list string) : bool :=
  forallb (fun p => forallb (fun q =>
     String.eqb p q || match Str.strip_prefix p q with Some _ => false | None => true end)
     ps) ps.

Definition ws_head (c : ascii) : bool :=
  existsb (head_is (Ascii.eqb c)) Str.whitespace.

Definition k0 : Regex.cont (A := option string) := fun _ cap => Some cap.

Definition token_here (s : string) : option (option string) :=
    if head_is is_id_char s then Some (Some (fst (Str.span is_id_char s))) else None.

Definition after_space (s : string) (cap : option string) : option (option string) :=
    Regex.run (Regex.Seq (Regex.Opt (Regex.Class is_quote))
                 (Regex.Group (Regex.Plus (Regex.Class is_id_char)))) s cap k0.

Definition quoted_example : string :=
  "youtube: " +:+ String double_quote ("abc123" +:+ String double_quote EmptyString).

(** *** The clock *)

(** Half a unit in the last place, relative, and a bound on the absolute
    error of gradual underflow. *)
Definition eps : Q := 1 # 9007199254740992.

Definition tiny : Q := 1 # 1180591620717411303424.

Definition two_digits (k : Z) : string :=
  String (Dec.digit_char (k / 10)) (String (Dec.digit_char (k mod 10)) EmptyString).

Definition three_digits (k : Z) : string :=
  String (Dec.digit_char (k / 100)) (two_digits (k mod 100)).

(** [HH:MM:SS.mmm] *)
Definition clock (h m s ms : Z) : string :=
  two_digits h +:+ ":" +:+ two_digits m +:+ ":" +:+ two_digits s +:+ "."
    +:+ three_digits ms.

(** The seconds a whole number of milliseconds divides to: within a
    billionth of the quotient, and the quotient itself when it is whole. *)
Definition seconds_of (n : Z) (r : Q) : Prop :=
  (0 <= r
   /\ inject_Z n * (1 # 1000) - (1 # 1000000000) <= r
   /\ r <= inject_Z n * (1 # 1000) + (1 # 1000000000)
   /\ forall k, n = (1000 * k)%Z -> r == inject_Z k)%Q.

Definition vtt_of (params : Params) : string :=
  event params +:+ "/" +:+ slug params +:+ "_" +:+ lang params +:+ ".vtt".

(** Hardware values spread over the exponent range, to run the printer on:
    multiples of a seventh of 1.1 (the nearest binary64 value), scaled by
    powers of two. *)
Definition float_multiple (i : nat) : PrimFloat.float :=
  (Nat.iter i (fun y => y + 1)%float 0%float * 0x1.199999999999ap+0 / 7)%float.

Definition float_samples : list PrimFloat.float :=
  (List.flat_map
     (fun i => let x := float_multiple i in
               [x; (x * 0x1p-17)%float; (x * 0x1p+83)%float])
     (List.seq 1 60)
   ++ List.flat_map
        (fun i => let x := float_multiple i in
                  [(x * 0x1p-1030)%float; (x * 0x1p+664)%float;
                   (x * x * 0x1p-499)%float])
        (List.seq 1 3))%list.

(** ** Vocabulary of the further properties *)

(** The string the handler compares the presented signature with, for the
    number [n] the id part coerces to: the signature minted for [n] when
    [n] prints without a hyphen, and otherwise what stands between the
    first and the second hyphen of the token minted for [n], which is the
    second hyphen-delimited part of the printed number. *)
Definition compared (secret : string) (n : Num.number) : string :=
  let text := Num.toString n in
  if Str.contains Str.hyphen text
  then nth 1 (Str.split Str.hyphen text) EmptyString
  else Sha256.hmac_hex secret text.

Definition secret_error : string := "FLAG_SECRET environment variable is not set".
Definition parse_error : string := "YouTube ID not found in content".

(** The row the [POST] handler hands to the store. *)
Definition row_of (params : Params) (body : FlagBody) : FlagRow :=
  {| vtt := vtt_of params;
     timestamp := formatTime (Num.div (body_timestamp body) n1000);
     text := body_text body |}.

(** No secret is held: [FLAG_SECRET] is unset or empty. *)
Definition no_secret (env : Env) : Prop :=
  env !! "FLAG_SECRET" = None \/ env !! "FLAG_SECRET" = Some EmptyString.

Definition videos_repo : string := "creatorsgarten/videos".
Definition videos_branch : string := "refs/heads/main".

(** The document of a video and its caption track in the repository. *)
Definition video_document (params : Params) : string :=
  "data/videos/" +:+ event params +:+ "/" +:+ slug params +:+ ".md".

Definition raw_url (repo branch file : string) : string :=
  "https://raw.githubusercontent.com/" +:+ repo +:+ "/" +:+ branch +:+ "/" +:+ file.

(** The local override is in force: [VIDEOS_PATH] is set and not empty. *)
Definition local_override (env : Env) (dir : string) : Prop :=
  env !! "VIDEOS_PATH" = Some dir /\ dir <> EmptyString.

Definition no_override (env : Env) : Prop :=
  env !! "VIDEOS_PATH" = None \/ env !! "VIDEOS_PATH" = Some EmptyString.

Definition lib0 : Library :=
  {| local_files := {[ "/srv/videos/data/videos/bkkjs22/intro.md" := quoted_example ]};
     remote_files := ∅ |}.

Definition env_local : Env := {[ "VIDEOS_PATH" := "/srv/videos" ]}.


(** * Properties *)

(** ** Test vectors *)

Example sha256_abc :
  Sha256.hex (Sha256.sha256 (Str.bytes "abc"))
  = "ba7816bf8f01cfea414140de5dae2223b00361a396177a9cb410ff61f20015ad".
Proof. vm_compute. reflexivity. Qed.

Example hmac_rfc_fox :
  Sha256.hmac_hex "key" "The quick brown fox jumps over the lazy dog"
  = "f7bc83f430538424b13298e6aa6fb143ef4d59a14946175997479dbc2d1a3cd8".
Proof. vm_compute. reflexivity. Qed.

Example hmac_long_key :
  Sha256.hmac_hex (Str.repeat "k" 70) "42"
  = "468a0c06266e759257d4af82f6a07e472f0e0a04b878819446be85682f54c41d".
Proof. vm_compute. reflexivity. Qed.

(** The shortest digits of an integer are its decimal numeral: on the first
    thousand integers and at the top of the safe range. *)
Example toString_digits_integers :
  forallb (fun z => String.eqb (Num.toString_digits (inject_Z z)) (Dec.of_nat_Z z))
    (List.map Z.of_nat (List.seq 1 1000)
       ++ [2 ^ 31; 10 ^ 15; 2 ^ 53 - 1; 2 ^ 53 - 2; 9007199254740000])%list
  = true.
Proof. vm_compute. reflexivity. Qed.

(** Printing and reading numbers outside the integers. *)
Example toString_samples :
  List.map (fun s => Num.toString (Num.ofString s))
    ["0.1"; "1.5"; "0.0000001"; "123.456"; "1e21"; "1e23"; "5e-324";
     "1152921504606846976"; "9007199254740993"; "0x2A"; " 42 "; "042"; "";
     "abc"; "Infinity"; "1e400"; "12px"; "."; "5."; ".5"]
  = ["0.1"; "1.5"; "1e-7"; "123.456"; "1e+21"; "1e+23"; "5e-324";
     "1152921504606847000"; "9007199254740992"; "42"; "42"; "42"; "0";
     "NaN"; "Infinity"; "Infinity"; "NaN"; "NaN"; "5"; "0.5"].
Proof. vm_compute. reflexivity. Qed.

(** Numbers that need sixteen or seventeen digits print with the digits
    that read back to them, the closest ones. *)
Example toString_seventeen_digits :
  List.map (fun s => Num.toString (Num.ofString s))
    ["0.30000000000000004"; "3.3000000000000003"; "1152921504606846592";
     "2.2250738585072014e-308"; "2.225073858507201e-308";
     "1.7976931348623157e+308"; "434.99999999999994"; "0.7999999999999999";
     "123456789012345680000"; "1234567890123456789012"; "9.999999999999999e22"]
  = ["0.30000000000000004"; "3.3000000000000003"; "1152921504606846600";
     "2.2250738585072014e-308"; "2.225073858507201e-308";
     "1.7976931348623157e+308"; "434.99999999999994"; "0.7999999999999999";
     "123456789012345680000"; "1.2345678901234568e+21"; "1e+23"]
  /\ List.map Num.toString
       [Num.mul (Num.ofString "1.1") (Num.of_Z 3);
        Num.div (Num.of_Z 100) (Num.of_Z 3);
        Num.mul (Num.ofString "4.35") (Num.of_Z 100);
        Num.div (Num.of_Z 1) (Num.of_Z 3);
        Num.mul (Num.ofString "1.1") (Num.ofString "1.1");
        Num.div (Num.of_Z 2) (Num.of_Z 3)]
     = ["3.3000000000000003"; "33.333333333333336"; "434.99999999999994";
        "0.3333333333333333"; "1.2100000000000002"; "0.6666666666666666"].
Proof. split; vm_compute; reflexivity. Qed.

(** Printing then reading gives the number back, on hardware values spread
    over the exponent range. *)
Example toString_reads_back :
  forallb (fun f => Num.eqb (Num.ofString (Num.toString (of_float f))) (of_float f))
    float_samples
  = true.
Proof. vm_compute. reflexivity. Qed.

(** ** Strings *)

Lemma contains_append c a b :
  Str.contains c (a +:+ b) = Str.contains c a || Str.contains c b.
Proof.
  induction a as [|d a IH]; simpl; [reflexivity|].
  rewrite IH. apply orb_assoc.
Qed.

Lemma split_no_sep sep a :
  Str.contains sep a = false -> Str.split sep a = [a].
Proof.
  induction a as [|c a IH]; simpl; [reflexivity|].
  intros Hc. apply orb_false_iff in Hc as [Hc Ha].
  rewrite Hc, (IH Ha). reflexivity.
Qed.

Lemma split_append_sep sep a b :
  Str.contains sep a = false ->
  Str.split sep (a +:+ String sep b) = a :: Str.split sep b.
Proof.
  induction a as [|c a IH]; simpl.
  - intros _. rewrite Ascii.eqb_refl. reflexivity.
  - intros Hc. apply orb_false_iff in Hc as [Hc Ha].
    rewrite Hc, (IH Ha). reflexivity.
Qed.

Lemma all_contains p c s :
  Str.all p s = true -> p c = false -> Str.contains c s = false.
Proof.
  intros Hall Hc. induction s as [|d s IH]; simpl in *; [reflexivity|].
  apply andb_true_iff in Hall as [Hd Hs].
  rewrite (IH Hs), orb_false_r.
  destruct (Ascii.eqb_spec d c) as [->|]; [congruence | reflexivity].
Qed.

Lemma all_append p a b :
  Str.all p (a +:+ b) = Str.all p a && Str.all p b.
Proof.
  induction a as [|c a IH]; simpl; [reflexivity|].
  rewrite IH. apply andb_assoc.
Qed.

Lemma append_empty_r (s : string) : s +:+ EmptyString = s.
Proof.
  induction s as [|c s IH]; [reflexivity|].
  change (String c (s +:+ EmptyString) = String c s). rewrite IH. reflexivity.
Qed.

Lemma rev_onto_rev_onto s a b :
  Str.rev_onto (Str.rev_onto s a) b = Str.rev_onto a (s +:+ b).
Proof.
  revert a b. induction s as [|c s IH]; intros a b; simpl; [reflexivity|].
  rewrite IH. reflexivity.
Qed.

Lemma rev_involutive s : Str.rev (Str.rev s) = s.
Proof.
  unfold Str.rev. rewrite rev_onto_rev_onto. simpl. apply append_empty_r.
Qed.

Lemma rev_onto_head p s acc :
  Str.all p s = true ->
  (s <> EmptyString /\ acc = EmptyString
   \/ exists c r, acc = String c r /\ p c = true) ->
  exists c r, Str.rev_onto s acc = String c r /\ p c = true.
Proof.
  revert acc. induction s as [|d s IH]; intros acc Hall Hacc; simpl in *.
  - destruct Hacc as [[Hne _]|Hacc]; [congruence | exact Hacc].
  - apply andb_true_iff in Hall as [Hd Hs].
    apply IH; [exact Hs|]. right. eauto.
Qed.

(** ** The digest *)

Lemma hex_digit_lower d : is_lower_hex (Sha256.hex_digit d) = true.
Proof.
  unfold Sha256.hex_digit.
  assert (H : Forall (fun c => is_lower_hex c = true) Sha256.hex_alphabet)
    by (repeat constructor).
  rewrite List.Forall_forall in H.
  destruct (Nat.lt_ge_cases (Z.to_nat d) (List.length Sha256.hex_alphabet)) as [Hlt|Hge].
  - apply H, nth_In, Hlt.
  - rewrite nth_overflow by exact Hge. reflexivity.
Qed.

Lemma hex_lower bs : Str.all is_lower_hex (Sha256.hex bs) = true.
Proof.
  induction bs as [|b bs IH]; simpl; [reflexivity|].
  rewrite !hex_digit_lower, IH. reflexivity.
Qed.

Lemma hex_length bs : String.length (Sha256.hex bs) = (2 * List.length bs)%nat.
Proof. induction bs as [|b bs IH]; simpl; [reflexivity | rewrite IH; lia]. Qed.

Lemma sha256_length msg : List.length (Sha256.sha256 msg) = 32%nat.
Proof. reflexivity. Qed.

Lemma hmac_hex_length key msg : String.length (Sha256.hmac_hex key msg) = 64%nat.
Proof.
  unfold Sha256.hmac_hex, Sha256.hmac. rewrite hex_length, sha256_length.
  reflexivity.
Qed.

Lemma hmac_hex_no_hyphen key msg :
  Str.contains Str.hyphen (Sha256.hmac_hex key msg) = false.
Proof.
  apply all_contains with (p := is_lower_hex); [apply hex_lower | reflexivity].
Qed.

(** ** Decimal numerals *)

Lemma digit_val_char d : 0 <= d < 10 -> Dec.digit_val (Dec.digit_char d) = Some d.
Proof.
  intros Hd.
  assert (H : forallb (fun d => match Dec.digit_val (Dec.digit_char d) with
                                | Some d' => d' =? d | None => false end)
                (List.map Z.of_nat (List.seq 0 10)) = true) by reflexivity.
  rewrite forallb_forall in H.
  specialize (H d). 
  destruct (Dec.digit_val (Dec.digit_char d)) as [d'|].
  - f_equal. apply Z.eqb_eq, H. apply in_map_iff. exists (Z.to_nat d).
    split; [lia|]. apply in_seq. lia.
  - discriminate H. apply in_map_iff. exists (Z.to_nat d).
    split; [lia|]. apply in_seq. lia.
Qed.

Lemma is_digit_char d : 0 <= d < 10 -> Dec.is_digit (Dec.digit_char d) = true.
Proof. intros Hd. unfold Dec.is_digit. rewrite digit_val_char by exact Hd. reflexivity. Qed.

Lemma digits_value fuel : forall n acc,
  0 <= n < 2 ^ Z.of_nat fuel ->
  Dec.value (Dec.digits fuel n acc) 0 = Dec.value acc n.
Proof.
  induction fuel as [|fuel IH]; intros n acc Hn.
  - simpl in *. replace n with 0 by lia. reflexivity.
  - rewrite Nat2Z.inj_succ, Z.pow_succ_r in Hn by lia.
    assert (Hd : 0 <= n mod 10 < 10) by (apply Z.mod_pos_bound; lia).
    assert (Hq : n = 10 * (n / 10) + n mod 10) by (apply Z.div_mod; lia).
    simpl. destruct (Z.eqb_spec (n / 10) 0) as [H0|H0].
    + simpl. rewrite digit_val_char by exact Hd. f_equal. lia.
    + rewrite IH.
      * simpl. rewrite digit_val_char by exact Hd. f_equal. lia.
      * split; [apply Z.div_pos; lia|]. apply Z.div_lt_upper_bound; lia.
Qed.

Lemma log2_fuel n : 0 <= n -> 0 <= n < 2 ^ Z.of_nat (S (Z.to_nat (Z.log2 n))).
Proof.
  intros Hn. split; [exact Hn|].
  rewrite Nat2Z.inj_succ, Z2Nat.id by apply Z.log2_nonneg.
  destruct (Z.eq_dec n 0) as [->|Hne]; [reflexivity|].
  apply Z.log2_spec. lia.
Qed.

Lemma of_nat_Z_value n : 0 <= n -> Dec.value (Dec.of_nat_Z n) 0 = n.
Proof.
  intros Hn. unfold Dec.of_nat_Z. rewrite digits_value by (apply log2_fuel, Hn).
  reflexivity.
Qed.

Lemma digits_all fuel : forall n acc,
  0 <= n -> Str.all Dec.is_digit acc = true ->
  Str.all Dec.is_digit (Dec.digits fuel n acc) = true.
Proof.
  induction fuel as [|fuel IH]; intros n acc Hn Hacc; simpl; [exact Hacc|].
  assert (Hd : 0 <= n mod 10 < 10) by (apply Z.mod_pos_bound; lia).
  destruct (n / 10 =? 0).
  - simpl. rewrite is_digit_char by exact Hd. exact Hacc.
  - apply IH; [apply Z.div_pos; lia|].
    simpl. rewrite is_digit_char by exact Hd. exact Hacc.
Qed.

Lemma digits_nonempty fuel n acc :
  Dec.digits (S fuel) n acc <> EmptyString.
Proof.
  revert n acc. induction fuel as [|fuel IH]; intros n acc; simpl.
  - destruct (n / 10 =? 0); discriminate.
  - destruct (n / 10 =? 0); [discriminate|]. apply IH.
Qed.

Lemma of_nat_Z_digits n : 0 <= n -> Str.all Dec.is_digit (Dec.of_nat_Z n) = true.
Proof. intros Hn. apply digits_all; [exact Hn | reflexivity]. Qed.

Lemma of_nat_Z_nonempty n : Dec.of_nat_Z n <> EmptyString.
Proof. apply digits_nonempty. Qed.

Lemma of_nat_Z_no_hyphen n :
  0 <= n -> Str.contains Str.hyphen (Dec.of_nat_Z n) = false.
Proof.
  intros Hn. apply all_contains with (p := Dec.is_digit);
    [apply of_nat_Z_digits, Hn | reflexivity].
Qed.

(** ** Rounding *)

Section Rounding.
Local Open Scope Q_scope.
Import Num.

Lemma pow2_pos z : 0 < pow2 z.
Proof. apply Qpower_0_lt. reflexivity. Qed.

Lemma pow2_add a b : pow2 (a + b) == pow2 a * pow2 b.
Proof. apply Qpower_plus. discriminate. Qed.

Lemma pow2_inject z : (0 <= z)%Z -> pow2 z == inject_Z (2 ^ z).
Proof. intros Hz. unfold pow2. rewrite Zpower_Qpower by exact Hz. reflexivity. Qed.

Lemma pow2_le a b : (a <= b)%Z -> pow2 a <= pow2 b.
Proof. intros H. apply Qpower_le_compat_l; [exact H | discriminate]. Qed.

Lemma pow2_lt_inv a b : pow2 a < pow2 b -> (a < b)%Z.
Proof. intros H. apply Qpower_lt_compat_l_inv with (q := 2 # 1); [exact H | reflexivity]. Qed.

Lemma pow2_succ a : pow2 (a + 1) == 2 * pow2 a.
Proof. rewrite pow2_add. change (pow2 1) with (2 # 1). ring. Qed.

(** Bounds of a positive integer by powers of two, in the rationals. *)
Lemma log2_bounds (n : Z) :
  (0 < n)%Z -> pow2 (Z.log2 n) <= inject_Z n /\ inject_Z n < pow2 (Z.log2 n + 1).
Proof.
  intros Hn. destruct (Z.log2_spec n Hn) as [Hlo Hhi].
  pose proof (Z.log2_nonneg n) as Hl.
  rewrite !pow2_inject by lia. split.
  - rewrite <- Zle_Qle. exact Hlo.
  - rewrite <- Zlt_Qlt. replace (Z.log2 n + 1)%Z with (Z.succ (Z.log2 n)) by lia.
    exact Hhi.
Qed.

Lemma Q_as_fraction (a : Q) : a * inject_Z (Zpos (Qden a)) == inject_Z (Qnum a).
Proof.
  destruct a as [n d]. unfold Qeq, Qmult, inject_Z. simpl. lia.
Qed.

Lemma ilog2_spec a : 0 < a -> pow2 (ilog2 a) <= a /\ a < pow2 (ilog2 a + 1).
Proof.
  intros Ha. unfold ilog2.
  set (n := Qnum a). set (d := Zpos (Qden a)).
  assert (Hn : (0 < n)%Z).
  { destruct a as [an ad]. unfold Qlt in Ha. simpl in *. subst n. simpl. lia. }
  assert (Hd : (0 < d)%Z) by (subst d; lia).
  destruct (log2_bounds n Hn) as [Hn1 Hn2].
  destruct (log2_bounds d Hd) as [Hd1 Hd2].
  pose proof (Q_as_fraction a) as Hfrac. fold n d in Hfrac.
  assert (Hdq : 0 < inject_Z d) by (rewrite <- (Zlt_Qlt 0); exact Hd).
  set (l := (Z.log2 n - Z.log2 d)%Z).
  assert (Hlo : pow2 (l - 1) < a).
  { apply Qmult_lt_r with (z := inject_Z d); [exact Hdq|].
    rewrite Hfrac. apply Qlt_le_trans with (y := pow2 (Z.log2 n)); [|exact Hn1].
    replace (Z.log2 n) with ((l - 1) + (Z.log2 d + 1))%Z by (subst l; lia).
    rewrite pow2_add. apply Qmult_lt_l; [apply pow2_pos | exact Hd2]. }
  assert (Hhi : a < pow2 (l + 1)).
  { apply Qmult_lt_r with (z := inject_Z d); [exact Hdq|].
    rewrite Hfrac. apply Qlt_le_trans with (y := pow2 (Z.log2 n + 1)); [exact Hn2|].
    replace (Z.log2 n + 1)%Z with ((l + 1) + Z.log2 d)%Z by (subst l; lia).
    rewrite pow2_add. apply Qmult_le_l; [apply pow2_pos | exact Hd1]. }
  destruct (Qle_bool (pow2 l) a) eqn:Hc.
  - apply Qle_bool_iff in Hc. split; [exact Hc | exact Hhi].
  - split; [apply Qlt_le_weak, Hlo|].
    replace (l - 1 + 1)%Z with l by lia.
    apply Qnot_le_lt. intros Hle. apply Qle_bool_iff in Hle. congruence.
Qed.

Lemma ilog2_unique a l : pow2 l <= a -> a < pow2 (l + 1) -> ilog2 a = l.
Proof.
  intros Hlo Hhi.
  assert (Ha : 0 < a) by (eapply Qlt_le_trans; [apply pow2_pos | exact Hlo]).
  destruct (ilog2_spec a Ha) as [Hlo' Hhi'].
  assert (H1 : (l < ilog2 a + 1)%Z)
    by (apply pow2_lt_inv; eapply Qle_lt_trans; eassumption).
  assert (H2 : (ilog2 a < l + 1)%Z)
    by (apply pow2_lt_inv; eapply Qle_lt_trans; eassumption).
  lia.
Qed.

Lemma ilog2_comp a b : 0 < a -> a == b -> ilog2 a = ilog2 b.
Proof.
  intros Ha Hab. symmetry. destruct (ilog2_spec a Ha) as [Hlo Hhi].
  apply ilog2_unique; rewrite <- Hab; assumption.
Qed.

Lemma round_half_even_comp x y : x == y -> round_half_even x = round_half_even y.
Proof.
  intros Hxy. unfold round_half_even. rewrite <- (Qfloor_comp x y Hxy).
  assert (Hc : (x - inject_Z (Qfloor x) ?= 1 # 2) = (y - inject_Z (Qfloor x) ?= 1 # 2))
    by (apply Qcompare_comp; [lra | reflexivity]).
  rewrite Hc. reflexivity.
Qed.

Lemma round_half_even_error x :
  Qabs (inject_Z (round_half_even x) - x) <= 1 # 2.
Proof.
  unfold round_half_even.
  pose proof (Qfloor_le x) as Hlo. pose proof (Qlt_floor x) as Hhi.
  rewrite inject_Z_plus in Hhi. change (inject_Z 1) with 1 in Hhi.
  set (f := Qfloor x) in *.
  apply Qabs_Qle_condition.
  destruct (Qcompare_spec (x - inject_Z f) (1 # 2)) as [He|Hl|Hg];
    [destruct (Z.even f)|..];
    rewrite ?inject_Z_plus; change (inject_Z 1) with 1; split; lra.
Qed.

Lemma round_half_even_Z x z : x == inject_Z z -> round_half_even x = z.
Proof.
  intros Hx. rewrite (round_half_even_comp _ _ Hx). unfold round_half_even.
  rewrite Qfloor_Z.
  destruct (Qcompare_spec (inject_Z z - inject_Z z) (1 # 2)) as [He|Hl|Hg];
    [exfalso; lra | reflexivity | exfalso; lra].
Qed.

Lemma round_half_even_nonneg x : 0 <= x -> (0 <= round_half_even x)%Z.
Proof.
  intros Hx. unfold round_half_even.
  assert (Hf : (0 <= Qfloor x)%Z).
  { change 0%Z with (Qfloor 0). apply Qfloor_resp_le, Hx. }
  destruct (Qcompare _ _); [destruct (Z.even _)|..]; lia.
Qed.

Lemma pow2_inv a : / pow2 a == pow2 (- a).
Proof. unfold pow2. rewrite Qpower_opp. reflexivity. Qed.

Lemma round_pos_zero a : a == 0 -> round_pos a == 0.
Proof.
  intros Ha. unfold round_pos. generalize (pow2 (Z.max (ilog2 a) (-1022) - 52)).
  intros u. rewrite (round_half_even_Z _ 0%Z); [ring|].
  unfold Qdiv. rewrite Ha. ring.
Qed.

Lemma round_pos_comp a b : 0 < a -> a == b -> round_pos a == round_pos b.
Proof.
  intros Ha Hab. unfold round_pos. rewrite <- (ilog2_comp a b Ha Hab).
  set (u := pow2 _).
  rewrite (round_half_even_comp (a / u) (b / u)); [reflexivity|].
  unfold Qdiv. rewrite Hab. reflexivity.
Qed.

Lemma round_pos_nonneg a : 0 <= a -> 0 <= round_pos a.
Proof.
  intros Ha. unfold round_pos. set (u := pow2 _).
  assert (Hu : 0 < u) by apply pow2_pos.
  apply Qmult_le_0_compat; [|apply Qlt_le_weak, Hu].
  rewrite <- (Zle_Qle 0). apply round_half_even_nonneg.
  apply Qle_shift_div_l; [exact Hu|]. lra.
Qed.

Lemma round_pos_error a :
  0 < a -> Qabs (round_pos a - a) <= a * pow2 (-53) + pow2 (-1075).
Proof.
  intros Ha. unfold round_pos.
  destruct (ilog2_spec a Ha) as [Hlo _].
  set (e := Z.max (ilog2 a) (-1022)). set (u := pow2 (e - 52)).
  assert (Hu : 0 < u) by apply pow2_pos.
  pose proof (round_half_even_error (a / u)) as Herr.
  set (m := inject_Z (round_half_even (a / u))) in *.
  assert (Hhalf : u * (1 # 2) <= a * pow2 (-53) + pow2 (-1075)).
  { assert (Hu2 : u * (1 # 2) == pow2 (e - 53)).
    { subst u. replace (e - 52)%Z with ((e - 53) + 1)%Z by lia.
      rewrite pow2_succ. field. }
    rewrite Hu2.
    pose proof (pow2_pos (-53)) as H53. pose proof (pow2_pos (-1075)) as H1075.
    destruct (Z.max_spec (ilog2 a) (-1022)) as [[_ He]|[_ He]]; fold e in He.
    - replace (e - 53)%Z with (-1075)%Z by lia.
      assert (0 <= a * pow2 (-53)) by (apply Qmult_le_0_compat; lra). lra.
    - replace (e - 53)%Z with (ilog2 a + -53)%Z by lia. rewrite pow2_add.
      assert (pow2 (ilog2 a) * pow2 (-53) <= a * pow2 (-53))
        by (apply Qmult_le_r; assumption).
      lra. }
  assert (Hm : m * u - a == (m - a / u) * u) by (field; lra).
  rewrite Hm, Qabs_Qmult, (Qabs_pos u) by lra.
  eapply Qle_trans; [|exact Hhalf].
  rewrite (Qmult_comm u). apply Qmult_le_r; [exact Hu | exact Herr].
Qed.

Lemma round_pos_int a z :
  (0 < z < 2 ^ 53)%Z -> a == inject_Z z -> round_pos a == inject_Z z.
Proof.
  intros Hz Ha.
  assert (Hpos : 0 < a) by (rewrite Ha, <- (Zlt_Qlt 0); lia).
  destruct (ilog2_spec a Hpos) as [Hlo Hhi].
  set (l := ilog2 a) in *.
  assert (Hl : (0 <= l < 53)%Z).
  { split.
    - assert (pow2 0 < pow2 (l + 1)).
      { eapply Qle_lt_trans; [|exact Hhi]. rewrite Ha.
        change (pow2 0) with (inject_Z 1). rewrite <- Zle_Qle. lia. }
      apply pow2_lt_inv in H. lia.
    - apply pow2_lt_inv. eapply Qle_lt_trans; [exact Hlo|].
      rewrite Ha, pow2_inject by lia. rewrite <- Zlt_Qlt. lia. }
  unfold round_pos. fold l. rewrite Z.max_l by lia.
  assert (Hu : pow2 (l - 52) * inject_Z (2 ^ (52 - l)) == 1).
  { rewrite <- pow2_inject by lia. rewrite <- pow2_add.
    replace (l - 52 + (52 - l))%Z with 0%Z by lia. reflexivity. }
  pose proof (pow2_pos (l - 52)) as Hup.
  rewrite (round_half_even_Z _ (z * 2 ^ (52 - l))).
  - rewrite inject_Z_mult. 
    rewrite <- Qmult_assoc, (Qmult_comm (inject_Z (2 ^ (52 - l)))), Hu. ring.
  - rewrite inject_Z_mult, Ha. apply Qmult_inj_r with (z := pow2 (l - 52)); [lra|].
    unfold Qdiv. rewrite <- !Qmult_assoc, (Qmult_comm (/ _)), Qmult_inv_r by lra.
    rewrite (Qmult_comm (inject_Z (2 ^ (52 - l)))), Hu. reflexivity.
Qed.

Lemma Qred_inject_Z q z : q == inject_Z z -> Qred q = inject_Z z.
Proof.
  intros Hq. rewrite (Qred_complete _ _ Hq).
  apply Qred_identity. simpl. apply Z.gcd_1_r.
Qed.

Lemma Qltb_lt x y : Qltb x y = true <-> x < y.
Proof.
  unfold Qltb. rewrite negb_true_iff. split.
  - intros H. apply Qnot_le_lt. intros Hle. apply Qle_bool_iff in Hle. congruence.
  - intros H. destruct (Qle_bool y x) eqn:E; [|reflexivity].
    apply Qle_bool_iff in E. lra.
Qed.

Lemma Qltb_ge x y : Qltb x y = false <-> y <= x.
Proof.
  unfold Qltb. rewrite negb_false_iff. apply Qle_bool_iff.
Qed.

Lemma Qle_bool_gt x y : y < x -> Qle_bool x y = false.
Proof.
  intros H. destruct (Qle_bool x y) eqn:E; [|reflexivity].
  apply Qle_bool_iff in E. lra.
Qed.

(** Integers below [2^53] in magnitude are representable. *)
Lemma rn_int q z :
  (Z.abs z < 2 ^ 53)%Z -> q == inject_Z z -> rn q = Finite (inject_Z z).
Proof.
  intros Hz Hq. unfold rn.
  assert (Hbig : inject_Z (2 ^ 53) < pow2 1024).
  { rewrite <- pow2_inject by lia. apply Qpower_lt_compat_l; [lia | reflexivity]. }
  assert (Hr : round_pos (Qabs q) == inject_Z (Z.abs z)).
  { destruct (Z.eq_dec z 0%Z) as [->|Hne].
    - apply round_pos_zero. rewrite Hq. reflexivity.
    - apply round_pos_int; [lia|]. rewrite Hq. reflexivity. }
  rewrite Qle_bool_gt.
  2:{ rewrite Hr. eapply Qlt_trans; [|exact Hbig]. rewrite <- Zlt_Qlt. exact Hz. }
  f_equal. apply Qred_inject_Z.
  destruct (Qltb q 0) eqn:Hs.
  - apply Qltb_lt in Hs. rewrite Hr. rewrite Hq in Hs.
    change 0 with (inject_Z 0) in Hs. rewrite <- Zlt_Qlt in Hs.
    rewrite Z.abs_neq by lia.
    rewrite inject_Z_opp. ring.
  - apply Qltb_ge in Hs. rewrite Hr. rewrite Hq in Hs.
    change 0 with (inject_Z 0) in Hs. rewrite <- Zle_Qle in Hs.
    rewrite Z.abs_eq by lia. reflexivity.
Qed.

(** A non-negative rational far below the overflow threshold rounds to a
    finite number within half a unit in the last place. *)
Lemma rn_nonneg q :
  0 <= q -> q <= pow2 1000 ->
  exists r, rn q = Finite r /\ 0 <= r
            /\ Qabs (r - q) <= q * pow2 (-53) + pow2 (-1075).
Proof.
  intros Hq Hmax. unfold rn.
  assert (Habs : Qabs q == q) by (apply Qabs_pos, Hq).
  assert (Hs : Qltb q 0 = false) by (apply Qltb_ge, Hq).
  rewrite Hs.
  assert (Hr0 : 0 <= round_pos (Qabs q)) by (apply round_pos_nonneg, Qabs_nonneg).
  assert (Herr : Qabs (round_pos (Qabs q) - q) <= q * pow2 (-53) + pow2 (-1075)).
  { destruct (Qlt_le_dec 0 q) as [Hpos|Hnp].
    - rewrite (round_pos_comp (Qabs q) q) by (rewrite ?Habs; try exact Hpos; reflexivity).
      apply round_pos_error, Hpos.
    - assert (Hz : q == 0) by lra.
      rewrite (round_pos_zero (Qabs q)) by (rewrite Habs; exact Hz).
      rewrite Hz. pose proof (pow2_pos (-1075)). 
      change (Qabs (0 - 0)) with 0. 
      assert (0 * pow2 (-53) == 0) by ring. lra. }
  rewrite Qle_bool_gt.
  - exists (Qred (round_pos (Qabs q))). split; [reflexivity|].
    rewrite Qred_correct. split; assumption.
  - apply Qabs_Qle_condition in Herr as [_ Hup].
    assert (H53 : pow2 (-53) <= 1) by (apply (pow2_le (-53) 0); lia).
    assert (H1075 : pow2 (-1075) <= 1) by (apply (pow2_le (-1075) 0); lia).
    assert (H1 : 1 <= pow2 1000) by (apply (pow2_le 0 1000); lia).
    assert (Hqq : q * pow2 (-53) <= q * 1).
    { generalize dependent (pow2 (-53)). intros p. intros. nra. }
    assert (Hlim : 4 * pow2 1000 <= pow2 1002).
    { replace 1002%Z with (1000 + 1 + 1)%Z by lia. rewrite !pow2_succ. lra. }
    assert (H1024 : pow2 1002 < pow2 1024)
      by (apply Qpower_lt_compat_l; [lia | reflexivity]).
    lra.
Qed.
End Rounding.

(** ** Integers as numbers *)

Lemma toString_nat z :
  0 <= z <= 2 ^ 53 - 1 -> Num.toString (Num.of_Z z) = Dec.of_nat_Z z.
Proof.
  intros Hz. unfold Num.toString, Num.of_Z.
  destruct (Qeq_bool (inject_Z z) 0) eqn:H0.
  - apply Qeq_bool_iff in H0. change 0%Q with (inject_Z 0) in H0.
    apply (proj1 (inject_Z_injective z 0)) in H0. subst z. reflexivity.
  - assert (Hneg : Num.Qltb (inject_Z z) 0 = false).
    { apply Qltb_ge. change 0%Q with (inject_Z 0). rewrite <- Zle_Qle. lia. }
    rewrite Hneg. unfold Num.toString_pos, Num.is_safe_integer.
    rewrite Qfloor_Z, Qeq_bool_refl. simpl andb.
    replace (Z.abs z <=? 2 ^ 53 - 1) with true by (symmetry; apply Z.leb_le; lia).
    reflexivity.
Qed.

Lemma toString_int z :
  Z.abs z <= 2 ^ 53 - 1 -> Num.toString (Num.of_Z z) = Dec.of_Z z.
Proof.
  intros Hz. unfold Dec.of_Z. destruct (Z.ltb_spec z 0) as [Hneg|Hpos].
  - unfold Num.toString, Num.of_Z.
    assert (H0 : Qeq_bool (inject_Z z) 0 = false).
    { destruct (Qeq_bool (inject_Z z) 0) eqn:E; [|reflexivity].
      apply Qeq_bool_iff in E. change 0%Q with (inject_Z 0) in E.
      apply (proj1 (inject_Z_injective z 0)) in E. lia. }
    assert (Hs : Num.Qltb (inject_Z z) 0 = true).
    { apply Qltb_lt. change 0%Q with (inject_Z 0). rewrite <- Zlt_Qlt. exact Hneg. }
    rewrite H0, Hs. f_equal.
    unfold Num.toString_pos, Num.is_safe_integer.
    change (- inject_Z z)%Q with (inject_Z (- z)).
    rewrite Qfloor_Z, Qeq_bool_refl. simpl andb.
    replace (Z.abs (- z) <=? 2 ^ 53 - 1) with true by (symmetry; apply Z.leb_le; lia).
    reflexivity.
  - apply toString_nat. lia.
Qed.

(** ** Reading a decimal numeral back *)

Lemma strip_prefix_head a p c s r :
  Str.strip_prefix (String a p) (String c s) = Some r -> a = c.
Proof.
  simpl. destruct (Ascii.eqb_spec a c); [trivial | discriminate].
Qed.

Lemma strip_any_none (p : ascii -> bool) ps c s :
  forallb (head_is (fun a => negb (p a))) ps = true ->
  p c = true -> Str.strip_any ps (String c s) = None.
Proof.
  intros Hps Hc. induction ps as [|w ps IH]; simpl in *; [reflexivity|].
  apply andb_true_iff in Hps as [Hw Hps].
  destruct w as [|a w]; [discriminate|]. simpl in Hw.
  destruct (Str.strip_prefix (String a w) (String c s)) eqn:E.
  - apply strip_prefix_head in E. subst a. rewrite Hc in Hw. discriminate.
  - apply IH, Hps.
Qed.

Lemma trim_fuel_digit ws n c s :
  forallb (head_is (fun a => negb (Dec.is_digit a))) ws = true ->
  Dec.is_digit c = true -> Str.trim_fuel ws n (String c s) = String c s.
Proof.
  intros Hws Hc. destruct n; simpl; [reflexivity|].
  rewrite (strip_any_none Dec.is_digit) by assumption. reflexivity.
Qed.

Lemma trim_digits s :
  s <> EmptyString -> Str.all Dec.is_digit s = true -> Str.trim s = s.
Proof.
  intros Hne Hall. unfold Str.trim, Str.trimStart, Str.trimEnd.
  destruct s as [|c s]; [congruence|].
  pose proof Hall as Hall'. simpl in Hall'. apply andb_true_iff in Hall' as [Hc _].
  rewrite trim_fuel_digit by (trivial; reflexivity).
  destruct (rev_onto_head Dec.is_digit (String c s) EmptyString Hall) as (d & r & Hr & Hd).
  { left. split; [discriminate | reflexivity]. }
  fold (Str.rev (String c s)) in Hr.
  rewrite Hr, trim_fuel_digit by (trivial; reflexivity).
  rewrite <- Hr. apply rev_involutive.
Qed.

Lemma span_all p s : Str.all p s = true -> Str.span p s = (s, EmptyString).
Proof.
  induction s as [|c s IH]; simpl; [reflexivity|].
  intros H. apply andb_true_iff in H as [Hc Hs]. rewrite Hc, (IH Hs). reflexivity.
Qed.

Lemma nondecimal_digits s : Str.all Dec.is_digit s = true -> Num.nondecimal s = None.
Proof.
  intros Hall. destruct s as [|a [|x [|c rest]]];
    [reflexivity
    | destruct a as [[] [] [] [] [] [] [] []]; reflexivity
    | destruct a as [[] [] [] [] [] [] [] []]; reflexivity |].
  simpl in Hall. apply andb_true_iff in Hall as [_ Hall].
  apply andb_true_iff in Hall as [Hx _].
  unfold Num.nondecimal.
  destruct a as [[] [] [] [] [] [] [] []]; try reflexivity.
  destruct (Ascii.eqb_spec x "x") as [->|]; [discriminate|].
  destruct (Ascii.eqb_spec x "X") as [->|]; [discriminate|].
  destruct (Ascii.eqb_spec x "o") as [->|]; [discriminate|].
  destruct (Ascii.eqb_spec x "O") as [->|]; [discriminate|].
  destruct (Ascii.eqb_spec x "b") as [->|]; [discriminate|].
  destruct (Ascii.eqb_spec x "B") as [->|]; [discriminate|].
  reflexivity.
Qed.

Lemma sign_of_digit c s :
  Dec.is_digit c = true -> Num.sign_of (String c s) = (false, String c s).
Proof.
  intros Hc. unfold Num.sign_of.
  destruct c as [[] [] [] [] [] [] [] []]; try reflexivity; discriminate.
Qed.

Lemma ofString_decimal z :
  0 <= z < 2 ^ 53 -> Num.ofString (Dec.of_nat_Z z) = Num.of_Z z.
Proof.
  intros Hz. unfold Num.ofString.
  pose proof (of_nat_Z_digits z (proj1 Hz)) as Hall.
  pose proof (of_nat_Z_nonempty z) as Hne.
  pose proof (of_nat_Z_value z (proj1 Hz)) as Hval.
  rewrite (trim_digits _ Hne Hall).
  destruct (Dec.of_nat_Z z) as [|c s] eqn:E; [congruence|].
  pose proof Hall as Hall'. simpl in Hall'. apply andb_true_iff in Hall' as [Hc _].
  change (String.eqb (String c s) EmptyString) with false. cbv iota.
  rewrite (nondecimal_digits _ Hall), (sign_of_digit _ _ Hc).
  assert (HI : String.eqb (String c s) "Infinity" = false).
  { destruct (String.eqb_spec (String c s) "Infinity") as [Heq|]; [|reflexivity].
    injection Heq as -> _. discriminate. }
  rewrite HI. unfold Num.unsigned_decimal. rewrite (span_all _ _ Hall).
  change (String.eqb (String c s) EmptyString) with false.
  cbn [andb Num.exponent String.length Z.of_nat Str.span].
  rewrite append_empty_r, Hval.
  apply rn_int; [lia|].
  change (Num.pow10 (0 - Z.of_nat 0)) with 1%Q. apply Qmult_1_r.
Qed.

(** ** The flag signer *)

Lemma append_cons c a b : String c a +:+ b = String c (a +:+ b).
Proof. reflexivity. Qed.

Lemma createFlagId_ok env secret id :
  secret_of env secret ->
  createFlagId env id
  = Ok ("flag-" +:+ ToString id +:+ "-" +:+ sign secret (ToString id)).
Proof.
  intros [Hs Hne]. unfold createFlagId. rewrite Hs.
  destruct (String.eqb_spec secret EmptyString); [contradiction | reflexivity].
Qed.

Lemma createFlagId_env env1 env2 id :
  env1 !! "FLAG_SECRET" = env2 !! "FLAG_SECRET" ->
  createFlagId env1 id = createFlagId env2 id.
Proof. intros Heq. unfold createFlagId. rewrite Heq. reflexivity. Qed.

(** The parts of a token whose first two parts hold no hyphen. *)
Lemma split_token p text rest :
  Str.contains Str.hyphen p = false ->
  Str.contains Str.hyphen text = false ->
  Str.split Str.hyphen (p +:+ "-" +:+ text +:+ "-" +:+ rest)
  = p :: text :: Str.split Str.hyphen rest.
Proof.
  intros Hp Ht.
  change (p +:+ "-" +:+ text +:+ "-" +:+ rest)
    with (p +:+ String Str.hyphen (text +:+ String Str.hyphen rest)).
  rewrite split_append_sep by exact Hp.
  rewrite split_append_sep by exact Ht. reflexivity.
Qed.

Lemma split_minted text sig :
  Str.contains Str.hyphen text = false ->
  Str.contains Str.hyphen sig = false ->
  Str.split Str.hyphen ("flag-" +:+ text +:+ "-" +:+ sig) = ["flag"; text; sig].
Proof.
  intros Ht Hs.
  change ("flag-" +:+ text +:+ "-" +:+ sig)
    with ("flag" +:+ "-" +:+ text +:+ "-" +:+ sig).
  rewrite split_token by (trivial; reflexivity).
  rewrite split_no_sep by exact Hs. reflexivity.
Qed.

Lemma split_nonempty sep s : Str.split sep s <> [].
Proof.
  destruct s as [|c s]; simpl; [discriminate|].
  destruct (Ascii.eqb c sep); [discriminate|].
  destruct (Str.split sep s); discriminate.
Qed.

Section Delete.
Context {S : Type} `{Grist S}.

(** The handler is the verification followed by the deletion. *)
Lemma delete_flags_verify env params (st : S) :
  delete_flags env params st
  = match verify env (flagId params) with
    | Throw e => (Throw e, st)
    | Ok n =>
        match deleteRecords "Flags" [n] st with
        | (Throw e, st') => (Throw e, st')
        | (Ok _, st') => (Ok tt, st')
        end
    end.
Proof.
  unfold delete_flags, verify.
  destruct (createFlagId env _) as [minted|e]; [|reflexivity].
  destruct (negb _); reflexivity.
Qed.

Lemma delete_flags_throw env params (st : S) e :
  verify env (flagId params) = Throw e ->
  delete_flags env params st = (Throw e, st).
Proof. intros Hv. rewrite delete_flags_verify, Hv. reflexivity. Qed.
End Delete.

(** What the verification computes once the secret is set: the two parts
    it reads and the signature it compares with. *)
Lemma verify_unfold env secret token :
  secret_of env secret ->
  verify env token
  = let parts := Str.split Str.hyphen token in
    let n := ToNumber (index parts 1) in
    let minted := "flag-" +:+ Num.toString n +:+ "-" +:+ sign secret (Num.toString n) in
    if strict_eq (index parts 2) (index (Str.split Str.hyphen minted) 2)
    then Ok n else Throw "Invalid flag ID".
Proof.
  intros Hs. unfold verify. rewrite (createFlagId_ok _ _ _ Hs). simpl ToString.
  cbv zeta. destruct (strict_eq _ _); reflexivity.
Qed.


Lemma verify_minted env secret z :
  secret_of env secret -> 0 <= z <= 2 ^ 53 - 1 ->
  forall p, Str.contains Str.hyphen p = false ->
  verify env (p +:+ "-" +:+ Dec.of_nat_Z z +:+ "-" +:+ sign secret (Dec.of_nat_Z z))
  = Ok (Num.of_Z z).
Proof.
  intros Hs Hz p Hp. rewrite (verify_unfold _ _ _ Hs). cbv zeta.
  rewrite split_token by (trivial; apply of_nat_Z_no_hyphen; lia).
  rewrite split_no_sep by apply hmac_hex_no_hyphen.
  change (index (p :: Dec.of_nat_Z z :: [sign secret (Dec.of_nat_Z z)]) 1)
    with (Text (Dec.of_nat_Z z)).
  change (index (p :: Dec.of_nat_Z z :: [sign secret (Dec.of_nat_Z z)]) 2)
    with (Text (sign secret (Dec.of_nat_Z z))).
  simpl ToNumber. rewrite ofString_decimal by lia. rewrite toString_nat by lia.
  rewrite split_minted
    by (try apply hmac_hex_no_hyphen; apply of_nat_Z_no_hyphen; lia).
  cbn [index nth_error strict_eq]. rewrite String.eqb_refl. reflexivity.
Qed.

Lemma digit_char_zero d : 0 <= d < 10 -> Dec.digit_char d = zero_char -> d = 0.
Proof.
  intros Hd Heq. pose proof (digit_val_char d Hd) as Hv.
  rewrite Heq in Hv. injection Hv as <-. reflexivity.
Qed.

Lemma digits_head fuel : forall n acc,
  0 < n < 2 ^ Z.of_nat fuel ->
  exists d r, Dec.digits fuel n acc = String (Dec.digit_char d) r /\ 0 < d < 10.
Proof.
  induction fuel as [|fuel IH]; intros n acc Hn.
  - simpl in Hn. lia.
  - rewrite Nat2Z.inj_succ, Z.pow_succ_r in Hn by lia.
    assert (Hd : 0 <= n mod 10 < 10) by (apply Z.mod_pos_bound; lia).
    assert (Hq : n = 10 * (n / 10) + n mod 10) by (apply Z.div_mod; lia).
    simpl. destruct (Z.eqb_spec (n / 10) 0) as [H0|H0].
    + exists (n mod 10), acc. split; [reflexivity | lia].
    + apply IH. assert (0 <= n / 10) by (apply Z.div_pos; lia).
      split; [lia|]. apply Z.div_lt_upper_bound; lia.
Qed.

Lemma of_nat_Z_canonical n :
  0 <= n -> head_is (Ascii.eqb zero_char) (Dec.of_nat_Z n) = true ->
  Dec.of_nat_Z n = "0".
Proof.
  intros Hn Hhead. destruct (Z.eq_dec n 0) as [->|Hne]; [reflexivity|].
  destruct (digits_head (S (Z.to_nat (Z.log2 n))) n EmptyString) as (d & r & Hd & Hr).
  { pose proof (log2_fuel n Hn). lia. }
  unfold Dec.of_nat_Z in *. rewrite Hd in Hhead. cbn [head_is] in Hhead.
  apply Ascii.eqb_eq in Hhead. symmetry in Hhead.
  apply digit_char_zero in Hhead; lia.
Qed.

Lemma of_Z_canonical z : canonical_decimal z (Dec.of_Z z).
Proof.
  unfold canonical_decimal, Dec.of_Z. destruct (Z.ltb_spec z 0) as [Hneg|Hpos].
  - exists (Dec.of_nat_Z (- z)). split; [reflexivity|].
    split; [apply of_nat_Z_nonempty|].
    split; [apply of_nat_Z_digits; lia|].
    split; [rewrite of_nat_Z_value by lia; lia|].
    apply of_nat_Z_canonical. lia.
  - exists (Dec.of_nat_Z z). split; [reflexivity|].
    split; [apply of_nat_Z_nonempty|].
    split; [apply of_nat_Z_digits; lia|].
    split; [rewrite of_nat_Z_value by lia; lia|].
    apply of_nat_Z_canonical. lia.
Qed.

Lemma split_length_append sep a b :
  List.length (Str.split sep (a +:+ String sep b))
  = (List.length (Str.split sep a) + List.length (Str.split sep b))%nat.
Proof.
  induction a as [|c a IH].
  - change (EmptyString +:+ String sep b) with (String sep b).
    simpl. rewrite Ascii.eqb_refl. reflexivity.
  - rewrite append_cons. simpl. destruct (Ascii.eqb c sep).
    + simpl. rewrite IH. reflexivity.
    + pose proof (split_nonempty sep a) as Ha.
      pose proof (split_nonempty sep (a +:+ String sep b)) as Hab.
      destruct (Str.split sep a); [congruence|].
      destruct (Str.split sep (a +:+ String sep b)); [congruence|].
      simpl in *. exact IH.
Qed.

(** A minted token always has a third part, whatever its id text is. *)
Lemma minted_third text sig :
  exists x, index (Str.split Str.hyphen ("flag-" +:+ text +:+ "-" +:+ sig)) 2 = Text x.
Proof.
  change ("flag-" +:+ text +:+ "-" +:+ sig)
    with ("flag" +:+ String Str.hyphen (text +:+ String Str.hyphen sig)).
  rewrite split_append_sep by reflexivity.
  pose proof (split_length_append Str.hyphen text sig) as Hlen.
  pose proof (split_nonempty Str.hyphen text) as Ht.
  pose proof (split_nonempty Str.hyphen sig) as Hs.
  destruct (Str.split Str.hyphen (text +:+ String Str.hyphen sig)) as [|x [|y l]];
    destruct (Str.split Str.hyphen text); destruct (Str.split Str.hyphen sig);
    simpl in Hlen; try congruence; try lia.
  all: exists y; reflexivity.
Qed.

(** ** Claims on the flag signer *)

(** C1, as amended: for every non-negative safe integer id, under a set
    secret, minting succeeds, the parsing and comparison of the [DELETE]
    handler accept the minted token and recover the id, and the handler
    goes on to delete exactly that id. *)
Theorem verify_mint_roundtrip env secret z :
  secret_of env secret -> 0 <= z <= 2 ^ 53 - 1 ->
  exists token,
    createFlagId env (Num (Num.of_Z z)) = Ok token
    /\ verify env token = Ok (Num.of_Z z)
    /\ forall S (G : Grist S) params (st : S),
         flagId params = token ->
         delete_flags env params st
         = finish (deleteRecords "Flags" [Num.of_Z z] st).
Proof.
  intros Hs Hz. eexists. split; [apply (createFlagId_ok _ _ _ Hs)|].
  change (ToString (Num (Num.of_Z z))) with (Num.toString (Num.of_Z z)).
  rewrite toString_nat by exact Hz.
  assert (Hv : verify env ("flag-" +:+ Dec.of_nat_Z z +:+ "-"
                             +:+ sign secret (Dec.of_nat_Z z)) = Ok (Num.of_Z z))
    by (apply (verify_minted env secret z Hs Hz "flag"); reflexivity).
  split; [exact Hv|].
  intros S G params st Htok. rewrite delete_flags_verify, Htok, Hv. reflexivity.
Qed.

Lemma verify_mint_roundtrip_witness :
  secret_of env0 "s3cret" /\ 0 <= 42 <= 2 ^ 53 - 1
  /\ exists token,
       createFlagId env0 (Num (Num.of_Z 42)) = Ok token
       /\ verify env0 token = Ok (Num.of_Z 42)
       /\ forall S (G : Grist S) params (st : S),
            flagId params = token ->
            delete_flags env0 params st
            = finish (deleteRecords "Flags" [Num.of_Z 42] st).
Proof.
  assert (Hs : secret_of env0 "s3cret") by (split; [reflexivity | discriminate]).
  assert (Hz : 0 <= 42 <= 2 ^ 53 - 1) by lia.
  split; [exact Hs|]. split; [exact Hz|].
  exact (verify_mint_roundtrip env0 "s3cret" 42 Hs Hz).
Defined.

(** C1 as stated fails on a negative id: the minted token has a fourth
    hyphen, the id part read back is empty, and the handler rejects the
    token it was given. *)
Lemma verify_mint_negative :
  exists token,
    createFlagId env0 (Num (Num.of_Z (-5))) = Ok token
    /\ Str.split Str.hyphen token = ["flag"; ""; "5"; sign "s3cret" "-5"]
    /\ verify env0 token = Throw "Invalid flag ID"
    /\ delete_flags env0 (params0 token) ([] : list Call)
       = (Throw "Invalid flag ID", []).
Proof.
  eexists. split; [vm_compute; reflexivity|].
  split; [vm_compute; reflexivity|].
  split; vm_compute; reflexivity.
Qed.

(** C4: under a set secret, the token minted for a safe integer id is
    [flag-], the canonical decimal numeral of the id, a hyphen, and the
    HMAC-SHA256 of that numeral under the secret written as 64 lowercase
    hexadecimal digits. *)
Theorem minted_token_shape env secret z :
  secret_of env secret -> safe_integer z ->
  exists dec sig,
    createFlagId env (Num (Num.of_Z z)) = Ok ("flag-" +:+ dec +:+ "-" +:+ sig)
    /\ canonical_decimal z dec
    /\ sig = Sha256.hex (Sha256.hmac (Str.bytes secret) (Str.bytes dec))
    /\ String.length sig = 64%nat
    /\ Str.all is_lower_hex sig = true.
Proof.
  intros Hs Hz. exists (Dec.of_Z z), (sign secret (Dec.of_Z z)).
  split.
  - rewrite (createFlagId_ok _ _ _ Hs).
    change (ToString (Num (Num.of_Z z))) with (Num.toString (Num.of_Z z)).
    rewrite toString_int by exact Hz. reflexivity.
  - split; [apply of_Z_canonical|]. split; [reflexivity|].
    split; [apply hmac_hex_length | apply hex_lower].
Qed.

Lemma minted_token_shape_witness :
  secret_of env0 "s3cret" /\ safe_integer (-7)
  /\ exists dec sig,
       createFlagId env0 (Num (Num.of_Z (-7))) = Ok ("flag-" +:+ dec +:+ "-" +:+ sig)
       /\ canonical_decimal (-7) dec
       /\ sig = Sha256.hex (Sha256.hmac (Str.bytes "s3cret") (Str.bytes dec))
       /\ String.length sig = 64%nat
       /\ Str.all is_lower_hex sig = true.
Proof.
  assert (Hs : secret_of env0 "s3cret") by (split; [reflexivity | discriminate]).
  assert (Hz : safe_integer (-7)) by (unfold safe_integer; lia).
  split; [exact Hs|]. split; [exact Hz|].
  exact (minted_token_shape env0 "s3cret" (-7) Hs Hz).
Defined.

(** C5: minting reads nothing but the secret and the id: two calls with
    the same id, in environments that hold the same [FLAG_SECRET], return
    the identical result. *)
Theorem createFlagId_deterministic env1 env2 id :
  env1 !! "FLAG_SECRET" = env2 !! "FLAG_SECRET" ->
  createFlagId env1 id = createFlagId env2 id.
Proof. intros Heq. unfold createFlagId. rewrite Heq. reflexivity. Qed.

Lemma createFlagId_deterministic_witness :
  env0 !! "FLAG_SECRET" = (<["VIDEOS_PATH" := "/srv/videos"]> env0) !! "FLAG_SECRET"
  /\ createFlagId env0 (Num (Num.of_Z 42))
     = createFlagId (<["VIDEOS_PATH" := "/srv/videos"]> env0) (Num (Num.of_Z 42)).
Proof.
  assert (H : env0 !! "FLAG_SECRET"
              = (<["VIDEOS_PATH" := "/srv/videos"]> env0) !! "FLAG_SECRET")
    by reflexivity.
  split; [exact H|].
  exact (createFlagId_deterministic env0 _ (Num (Num.of_Z 42)) H).
Defined.

(** C3: when the verification of the presented token fails, the handler
    fails with the same error and hands back the state of the store it was
    given: [deleteRecords] is not reached. *)
Theorem delete_invalid_untouched {S : Type} `{Grist S} env params (st : S) e :
  verify env (flagId params) = Throw e ->
  delete_flags env params st = (Throw e, st).
Proof. apply delete_flags_throw. Qed.

Lemma delete_invalid_untouched_witness :
  verify env0 "flag-42-deadbeef" = Throw "Invalid flag ID"
  /\ delete_flags env0 (params0 "flag-42-deadbeef") ([] : list Call)
     = (Throw "Invalid flag ID", []).
Proof.
  assert (Hv : verify env0 (flagId (params0 "flag-42-deadbeef"))
               = Throw "Invalid flag ID") by (vm_compute; reflexivity).
  split; [exact Hv|].
  exact (delete_invalid_untouched env0 (params0 "flag-42-deadbeef") [] _ Hv).
Defined.

(** C10: the handler reads the [flagId] parameter only. Requests that carry
    the same token under any two video paths verify alike and end alike:
    a token that verifies to a number has that number deleted from the
    table of the flags under both paths, a token that is rejected is
    rejected under both with the store untouched, and the token minted for
    a non-negative safe integer id deletes that id under whatever path it
    is presented. *)
Theorem delete_ignores_path {S : Type} `{Grist S} env p1 p2 (st : S) :
  flagId p1 = flagId p2 ->
  verify env (flagId p1) = verify env (flagId p2)
  /\ delete_flags env p1 st = delete_flags env p2 st
  /\ (forall n, verify env (flagId p1) = Ok n ->
        delete_flags env p1 st = finish (deleteRecords "Flags" [n] st)
        /\ delete_flags env p2 st = finish (deleteRecords "Flags" [n] st))
  /\ (forall e, verify env (flagId p1) = Throw e ->
        delete_flags env p1 st = (Throw e, st)
        /\ delete_flags env p2 st = (Throw e, st))
  /\ (forall secret z, secret_of env secret -> 0 <= z <= 2 ^ 53 - 1 ->
        createFlagId env (Num (Num.of_Z z)) = Ok (flagId p1) ->
        delete_flags env p2 st = finish (deleteRecords "Flags" [Num.of_Z z] st)).
Proof.
  intros Heq. split; [rewrite Heq; reflexivity|].
  split; [rewrite !delete_flags_verify, Heq; reflexivity|].
  split; [|split].
  - intros n Hv. rewrite !delete_flags_verify, <- Heq, Hv. split; reflexivity.
  - intros e Hv. rewrite !delete_flags_verify, <- Heq, Hv. split; reflexivity.
  - intros secret z Hs Hz Hmint.
    rewrite (createFlagId_ok _ _ _ Hs) in Hmint.
    change (ToString (Num (Num.of_Z z))) with (Num.toString (Num.of_Z z)) in Hmint.
    rewrite toString_nat in Hmint by exact Hz. injection Hmint as Htok.
    rewrite delete_flags_verify, <- Heq, <- Htok.
    change ("flag-" +:+ Dec.of_nat_Z z +:+ "-" +:+ sign secret (Dec.of_nat_Z z))
      with ("flag" +:+ "-" +:+ Dec.of_nat_Z z +:+ "-" +:+ sign secret (Dec.of_nat_Z z)).
    rewrite (verify_minted env secret z Hs Hz) by reflexivity. reflexivity.
Qed.

Lemma delete_ignores_path_witness :
  flagId (params0 token42) = flagId (other_path token42)
  /\ delete_flags env0 (params0 token42) ([] : list Call)
     = (Ok tt, [DeleteRecords "Flags" [Num.of_Z 42]])
  /\ delete_flags env0 (other_path token42) ([] : list Call)
     = (Ok tt, [DeleteRecords "Flags" [Num.of_Z 42]]).
Proof.
  assert (Heq : flagId (params0 token42) = flagId (other_path token42))
    by reflexivity.
  assert (Hs : secret_of env0 "s3cret") by (split; [reflexivity | discriminate]).
  assert (Hz : 0 <= 42 <= 2 ^ 53 - 1) by lia.
  assert (Hmint : createFlagId env0 (Num (Num.of_Z 42)) = Ok (flagId (params0 token42)))
    by (vm_compute; reflexivity).
  destruct (delete_ignores_path env0 (params0 token42) (other_path token42) [] Heq)
    as (_ & Hsame & _ & _ & Hvalid).
  split; [exact Heq|].
  rewrite Hsame, (Hvalid "s3cret" 42 Hs Hz Hmint). split; reflexivity.
Defined.



(** C2 as stated fails, on both of its halves. The id part [abc] is not
    numeric: it coerces to [NaN] and the token is accepted with the
    signature minted for [NaN]. The id part [0.0000001] is not the decimal
    numeral of an integer and the presented signature [7] is not the
    signature minted for it: the id part coerces to the number that prints
    as [1e-7], so the third part of the token minted for it is the exponent
    digit, and the token is accepted. Both requests reach the deletion. *)
Lemma delete_accepts_unvalidated :
  (Num.ofString "abc" = Num.NaN
   /\ delete_flags env0
        (params0 "flag-abc-8339dd669ce9fd09c8d9cc65aa5ceac2267852d681c84361b6b8be3c3c804a72")
        ([] : list Call)
      = (Ok tt, [DeleteRecords "Flags" [Num.NaN]]))
  /\ Str.split Str.hyphen "flag-0.0000001-7" = ["flag"; "0.0000001"; "7"]
  /\ Str.all Dec.is_digit "0.0000001" = false
  /\ Num.toString (Num.ofString "0.0000001") = "1e-7"
  /\ "7" <> sign "s3cret" (Num.toString (Num.ofString "0.0000001"))
  /\ verify env0 "flag-0.0000001-7" = Ok (Num.ofString "0.0000001")
  /\ delete_flags env0 (params0 "flag-0.0000001-7") ([] : list Call)
     = (Ok tt, [DeleteRecords "Flags" [Num.ofString "0.0000001"]]).
Proof.
  split; [split; vm_compute; reflexivity|].
  split; [reflexivity|]. split; [reflexivity|].
  split; [vm_compute; reflexivity|].
  split; [vm_compute; discriminate|].
  split; vm_compute; reflexivity.
Qed.

(** A padded id part and a trailing fourth part are accepted with the
    signature of the number the id part coerces to. *)
Example delete_accepts_padded :
  delete_flags env0
    (params0 "x- 042 -982005f6c4662ae06eaa3ba4eac3c6459bc772386f3c8ac329b503a2ee32276e-y")
    ([] : list Call)
  = (Ok tt, [DeleteRecords "Flags" [Num.of_Z 42]]).
Proof. vm_compute. reflexivity. Qed.

(** An id part that is no integer is accepted with the signature of the
    text its number prints as, and that number is deleted. *)
Example delete_accepts_fraction :
  delete_flags env0
    (params0 ("flag-3.3000000000000003-" +:+ sign "s3cret" "3.3000000000000003"))
    ([] : list Call)
  = (Ok tt, [DeleteRecords "Flags" [Num.mul (Num.ofString "1.1") (Num.of_Z 3)]]).
Proof. vm_compute. reflexivity. Qed.

(** C2, as amended: under a set secret the handler rejects, without
    touching the store, every token with fewer than three hyphen-delimited
    parts, and every token whose third part differs from the signature
    minted for the number its second part coerces to, whenever that number
    prints without a hyphen. *)
Theorem delete_rejects {S : Type} `{Grist S} env secret params (st : S) :
  secret_of env secret ->
  let parts := Str.split Str.hyphen (flagId params) in
  ((List.length parts < 3)%nat ->
   delete_flags env params st = (Throw "Invalid flag ID", st))
  /\ (forall id sig,
        nth_error parts 1 = Some id -> nth_error parts 2 = Some sig ->
        let text := Num.toString (Num.ofString id) in
        Str.contains Str.hyphen text = false ->
        sig <> Sha256.hmac_hex secret text ->
        delete_flags env params st = (Throw "Invalid flag ID", st)).
Proof.
  intros Hs parts. split.
  - intros Hlen. apply delete_flags_throw.
    rewrite (verify_unfold _ _ _ Hs). cbv zeta. fold parts.
    destruct (minted_third (Num.toString (ToNumber (index parts 1)))
                (sign secret (Num.toString (ToNumber (index parts 1))))) as [x Hx].
    rewrite Hx. unfold index at 1.
    replace (nth_error parts 2) with (@None string)
      by (symmetry; apply nth_error_None; lia).
    reflexivity.
  - intros id sig Hid Hsig text Htext Hne. apply delete_flags_throw.
    rewrite (verify_unfold _ _ _ Hs). cbv zeta. fold parts.
    assert (H1 : index parts 1 = Text id) by (unfold index; rewrite Hid; reflexivity).
    assert (H2 : index parts 2 = Text sig) by (unfold index; rewrite Hsig; reflexivity).
    rewrite H1, H2. simpl ToNumber. fold text.
    rewrite split_minted by (trivial; apply hmac_hex_no_hyphen).
    cbn [index nth_error strict_eq].
    destruct (String.eqb_spec sig (sign secret text)) as [Heq|_];
      [contradiction | reflexivity].
Qed.

Lemma delete_rejects_witness :
  secret_of env0 "s3cret"
  /\ let parts := Str.split Str.hyphen (flagId (params0 "flag-42-deadbeef")) in
     ((List.length parts < 3)%nat ->
      delete_flags env0 (params0 "flag-42-deadbeef") ([] : list Call)
      = (Throw "Invalid flag ID", []))
     /\ (forall id sig,
           nth_error parts 1 = Some id -> nth_error parts 2 = Some sig ->
           let text := Num.toString (Num.ofString id) in
           Str.contains Str.hyphen text = false ->
           sig <> Sha256.hmac_hex "s3cret" text ->
           delete_flags env0 (params0 "flag-42-deadbeef") ([] : list Call)
           = (Throw "Invalid flag ID", [])).
Proof.
  assert (Hs : secret_of env0 "s3cret") by (split; [reflexivity | discriminate]).
  split; [exact Hs|].
  exact (delete_rejects env0 "s3cret" (params0 "flag-42-deadbeef") [] Hs).
Defined.

(** ** The time formatter *)

Set Warnings "-inexact-float".

(** The rounding of [Num] is the machine's on the numbers of the three
    cited equations. *)
Example machine_literal :
  Num.ofString "86399.999" = of_float 86399.999%float
  /\ Num.ofString "3661.5" = of_float 3661.5%float.
Proof. split; vm_compute; reflexivity. Qed.

Example machine_mul :
  Num.mul (of_float 86399.999%float) n1000 = of_float (86399.999 * 1000)%float.
Proof. vm_compute. reflexivity. Qed.

Example machine_div :
  Num.div (of_float 86399.999%float) n3600 = of_float (86399.999 / 3600)%float
  /\ Num.div (Num.of_Z 65001) n1000 = of_float (65001 / 1000)%float
  /\ Num.mul (Num.div (Num.of_Z 65001) n1000) n1000
     = of_float (65001 / 1000 * 1000)%float.
Proof. split; [|split]; vm_compute; reflexivity. Qed.

(** C7: the three cited equations of the time formatter, on the numbers
    the literals [0], [3661.5] and [86399.999] denote. *)
Theorem formatTime_equations :
  formatTime (Num.ofString "0") = "00:00:00.000"
  /\ formatTime (Num.ofString "3661.5") = "01:01:01.500"
  /\ formatTime (Num.ofString "86399.999") = "23:59:59.999".
Proof. split; [|split]; vm_compute; reflexivity. Qed.

(** ** The time formatter on whole milliseconds *)

Section Clock.
Local Open Scope Q_scope.
Import Num.

Lemma pow2_53 : pow2 (-53) == eps.
Proof. reflexivity. Qed.

Lemma pow2_1075 : pow2 (-1075) <= tiny.
Proof.
change tiny with (pow2 (-70)). apply pow2_le. lia.
Qed.

(** Rounding a rational between 0 and a million moves it by less than
  a billionth. *)
Lemma rn_close q :
0 <= q -> q <= 1000000 ->
exists r, rn q = Finite r /\ 0 <= r /\ q - (1 # 1000000000) <= r
          /\ r <= q + (1 # 1000000000).
Proof.
intros Hq Hmax.
destruct (rn_nonneg q Hq) as (r & Hr & Hr0 & Herr).
{ eapply Qle_trans; [exact Hmax|]. change 1000000 with (inject_Z 1000000).
  rewrite pow2_inject by lia. rewrite <- Zle_Qle. 
  apply Z.le_trans with (m := (2 ^ 20)%Z); [lia|].
  apply Z.pow_le_mono_r; lia. }
exists r. split; [exact Hr|]. split; [exact Hr0|].
apply Qabs_diff_Qle_condition in Herr.
pose proof pow2_1075 as Ht. rewrite pow2_53 in Herr.
unfold eps, tiny in *. lra.
Qed.

(** Up to a billion the move stays below a millionth. *)
Lemma rn_close_wide q :
0 <= q -> q <= 1000000000 ->
exists r, rn q = Finite r /\ 0 <= r /\ q - (1 # 1000000) <= r
          /\ r <= q + (1 # 1000000).
Proof.
intros Hq Hmax.
destruct (rn_nonneg q Hq) as (r & Hr & Hr0 & Herr).
{ eapply Qle_trans; [exact Hmax|]. change 1000000000 with (inject_Z 1000000000).
  rewrite pow2_inject by lia. rewrite <- Zle_Qle.
  apply Z.le_trans with (m := (2 ^ 30)%Z); [lia|].
  apply Z.pow_le_mono_r; lia. }
exists r. split; [exact Hr|]. split; [exact Hr0|].
apply Qabs_diff_Qle_condition in Herr.
pose proof pow2_1075 as Ht. rewrite pow2_53 in Herr.
unfold eps, tiny in *. lra.
Qed.

Lemma Qfloor_unique q k :
inject_Z k <= q -> q < inject_Z k + 1 -> Qfloor q = k.
Proof.
intros Hlo Hhi. pose proof (Qfloor_le q) as H1. pose proof (Qlt_floor q) as H2.
rewrite inject_Z_plus in H2. change (inject_Z 1) with 1 in H2.
assert (Ha : inject_Z k < inject_Z (Qfloor q) + 1) by lra.
assert (Hb : inject_Z (Qfloor q) < inject_Z k + 1) by lra.
change 1 with (inject_Z 1) in Ha, Hb. rewrite <- inject_Z_plus in Ha, Hb.
rewrite <- Zlt_Qlt in Ha, Hb. lia.
Qed.

Lemma of_Z_nonzero c : (0 < c)%Z -> Qeq_bool (inject_Z c) 0 = false.
Proof.
intros Hc. destruct (Qeq_bool (inject_Z c) 0) eqn:E; [|reflexivity].
apply Qeq_bool_iff in E. change 0 with (inject_Z 0) in E.
apply (proj1 (inject_Z_injective c 0)) in E. lia.
Qed.

(** [Math.floor(r / c)] when the quotient is an integer. *)
Lemma floor_div_exact r c k :
(0 < c)%Z -> (Z.abs k < 2 ^ 53)%Z -> r == inject_Z (c * k) ->
floor (div (Finite r) (of_Z c)) = of_Z k.
Proof.
intros Hc Hk Hr. unfold div, of_Z. rewrite (of_Z_nonzero c Hc).
rewrite (rn_int (r / inject_Z c) k Hk).
- unfold floor. rewrite Qfloor_Z. reflexivity.
- rewrite Hr, inject_Z_mult. field.
  change 0 with (inject_Z 0). rewrite inject_Z_injective. lia.
Qed.

(** The floor of a quotient by a positive number. *)
Lemma Qfloor_div r c k :
0 < c -> c * inject_Z k <= r -> r < c * (inject_Z k + 1) ->
Qfloor (r / c) = k.
Proof.
intros Hc Hlo Hhi. apply Qfloor_unique.
- apply Qle_shift_div_l; [exact Hc | lra].
- apply Qlt_shift_div_r; [exact Hc | lra].
Qed.

(** [Math.floor(r / c)] when the quotient is clear of the integers. *)
Lemma floor_div_between r c k :
(0 < c)%Z -> (0 <= k)%Z -> 0 <= r ->
inject_Z c * (inject_Z k + (1 # 1000000000)) <= r ->
r <= inject_Z c * (inject_Z k + 1 - (1 # 500000000)) ->
inject_Z k <= 999999 ->
floor (div (Finite r) (of_Z c)) = of_Z k.
Proof.
intros Hc Hk Hr Hlo Hhi Hmax. unfold div, of_Z. rewrite (of_Z_nonzero c Hc).
assert (Hcq : 0 < inject_Z c) by (rewrite <- (Zlt_Qlt 0); exact Hc).
assert (Hqlo : inject_Z k + (1 # 1000000000) <= r / inject_Z c)
  by (apply Qle_shift_div_l; [exact Hcq | lra]).
assert (Hqhi : r / inject_Z c <= inject_Z k + 1 - (1 # 500000000))
  by (apply Qle_shift_div_r; [exact Hcq | lra]).
assert (Hk0 : 0 <= inject_Z k) by (rewrite <- (Zle_Qle 0); exact Hk).
destruct (rn_close (r / inject_Z c)) as (r2 & H2 & H20 & Hlo2 & Hhi2); [lra | lra |].
rewrite H2. unfold floor. f_equal. f_equal. apply Qfloor_unique; lra.
Qed.

(** [r % c] for a non-negative [r]. *)
Lemma rem_nonneg r c :
(0 < c)%Z -> 0 <= r ->
exists y, rem (Finite r) (of_Z c) = Finite y
          /\ y == r - inject_Z c * inject_Z (Qfloor (r / inject_Z c))
          /\ 0 <= y /\ y < inject_Z c.
Proof.
intros Hc Hr. unfold rem, of_Z. rewrite (of_Z_nonzero c Hc).
assert (Hcq : 0 < inject_Z c) by (rewrite <- (Zlt_Qlt 0); exact Hc).
assert (Hq : 0 <= r / inject_Z c) by (apply Qle_shift_div_l; lra).
unfold Qtrunc. rewrite (proj2 (Qltb_ge _ _) Hq).
eexists. split; [reflexivity|]. rewrite Qred_correct.
split; [reflexivity|].
pose proof (Qfloor_le (r / inject_Z c)) as H1.
pose proof (Qlt_floor (r / inject_Z c)) as H2.
rewrite inject_Z_plus in H2. change (inject_Z 1) with 1 in H2.
set (f := inject_Z (Qfloor (r / inject_Z c))) in *.
assert (Hrc : r == (r / inject_Z c) * inject_Z c) by (field; lra).
generalize dependent (r / inject_Z c). intros x. intros. nra.
Qed.
End Clock.

Section Fields.
Local Open Scope Q_scope.
Import Num.

Lemma seconds_of_div n :
(0 <= n < 360000000)%Z ->
exists r, div (of_Z n) n1000 = Finite r /\ seconds_of n r.
Proof.
intros Hn. unfold n1000, of_Z, div. rewrite (of_Z_nonzero 1000) by lia.
change (inject_Z 1000) with 1000.
assert (H0 : 0 <= inject_Z n) by (rewrite <- (Zle_Qle 0); lia).
assert (H1 : inject_Z n <= 360000000)
  by (change 360000000 with (inject_Z 360000000); rewrite <- Zle_Qle; lia).
assert (Hd : inject_Z n / 1000 == inject_Z n * (1 # 1000)) by reflexivity.
destruct (rn_close (inject_Z n / 1000)) as (r & Hr & Hr0 & Hlo & Hhi);
  [rewrite Hd; lra | rewrite Hd; lra |].
rewrite Hd in Hlo, Hhi.
exists r. split; [exact Hr|]. unfold seconds_of.
repeat split; try assumption.
intros k Hk. rewrite (rn_int (inject_Z n / 1000) k) in Hr.
- injection Hr as <-. reflexivity.
- lia.
- rewrite Hk, inject_Z_mult. change (inject_Z 1000) with 1000. field.
Qed.

Variable n : Z.
Variable r : Q.
Hypothesis Hn : (0 <= n < 360000000)%Z.
Hypothesis Hr : seconds_of n r.

Lemma hours_field : floor (div (Finite r) n3600) = of_Z (n / 3600000).
Proof.
destruct Hr as (Hr0 & Hlo & Hhi & Hex). unfold n3600.
set (h := (n / 3600000)%Z).
assert (Hh : (0 <= h < 100)%Z) by (subst h; Z.div_mod_to_equations; lia).
destruct (Z.eq_dec (n mod 3600000)%Z 0%Z) as [Hz|Hnz].
- apply floor_div_exact; [lia | lia |].
  apply Hex. subst h. Z.div_mod_to_equations. lia.
- assert (Hq : (3600000 * h + 1 <= n <= 3600000 * h + 3599999)%Z)
    by (subst h; Z.div_mod_to_equations; lia).
  destruct Hq as [Hq1 Hq2]. rewrite Zle_Qle in Hq1, Hq2.
  rewrite inject_Z_plus, inject_Z_mult in Hq1, Hq2.
  change (inject_Z 3600000) with 3600000 in *.
  change (inject_Z 1) with 1 in *. change (inject_Z 3599999) with 3599999 in *.
  assert (Hhq : 0 <= inject_Z h <= 99).
  { change 0 with (inject_Z 0). change 99 with (inject_Z 99).
    rewrite <- !Zle_Qle. lia. }
  apply floor_div_between; [lia | lia | exact Hr0 | | |];
    change (inject_Z 3600) with 3600; lra.
Qed.

Lemma minutes_field :
floor (div (rem (Finite r) n3600) n60) = of_Z ((n / 60000) mod 60).
Proof.
destruct Hr as (Hr0 & Hlo & Hhi & Hex). unfold n3600, n60.
set (h := (n / 3600000)%Z). set (m := ((n / 60000) mod 60)%Z).
assert (Hh : (0 <= h < 100)%Z) by (subst h; Z.div_mod_to_equations; lia).
assert (Hm : (0 <= m < 60)%Z) by (subst m; Z.div_mod_to_equations; lia).
assert (Hhq : 0 <= inject_Z h <= 99).
{ change 0 with (inject_Z 0). change 99 with (inject_Z 99).
  rewrite <- !Zle_Qle. lia. }
assert (Hmq : 0 <= inject_Z m <= 59).
{ change 0 with (inject_Z 0). change 59 with (inject_Z 59).
  rewrite <- !Zle_Qle. lia. }
destruct (rem_nonneg r 3600) as (y & Hy & Hyv & Hy0 & Hy1); [lia | exact Hr0 |].
rewrite Hy. change (inject_Z 3600) with 3600 in *.
destruct (Z.eq_dec (n mod 60000)%Z 0%Z) as [Hz|Hnz].
- assert (Hrk : r == inject_Z (3600 * h + 60 * m)).
  { apply Hex. subst h m. Z.div_mod_to_equations. lia. }
  rewrite inject_Z_plus, !inject_Z_mult in Hrk.
  change (inject_Z 3600) with 3600 in Hrk. change (inject_Z 60) with 60 in Hrk.
  assert (Hf : Qfloor (r / 3600) = h) by (apply Qfloor_div; lra).
  rewrite Hf in Hyv.
  apply floor_div_exact; [lia | lia |].
  rewrite inject_Z_mult. change (inject_Z 60) with 60. lra.
- assert (Hq : (3600000 * h + 60000 * m + 1 <= n
                <= 3600000 * h + 60000 * m + 59999)%Z)
    by (subst h m; Z.div_mod_to_equations; lia).
  destruct Hq as [Hq1 Hq2]. rewrite Zle_Qle in Hq1, Hq2.
  rewrite !inject_Z_plus, !inject_Z_mult in Hq1, Hq2.
  change (inject_Z 3600000) with 3600000 in *.
  change (inject_Z 60000) with 60000 in *.
  change (inject_Z 1) with 1 in *. change (inject_Z 59999) with 59999 in *.
  assert (Hf : Qfloor (r / 3600) = h) by (apply Qfloor_div; lra).
  rewrite Hf in Hyv.
  apply floor_div_between; [lia | lia | exact Hy0 | | |];
    change (inject_Z 60) with 60; lra.
Qed.

Lemma seconds_field :
floor (rem (Finite r) n60) = of_Z ((n / 1000) mod 60).
Proof.
destruct Hr as (Hr0 & Hlo & Hhi & Hex). unfold n60.
set (a := (n / 60000)%Z). set (s := ((n / 1000) mod 60)%Z).
assert (Ha : (0 <= a < 6000)%Z) by (subst a; Z.div_mod_to_equations; lia).
assert (Hs : (0 <= s < 60)%Z) by (subst s; Z.div_mod_to_equations; lia).
assert (Haq : 0 <= inject_Z a <= 5999).
{ change 0 with (inject_Z 0). change 5999 with (inject_Z 5999).
  rewrite <- !Zle_Qle. lia. }
assert (Hsq : 0 <= inject_Z s <= 59).
{ change 0 with (inject_Z 0). change 59 with (inject_Z 59).
  rewrite <- !Zle_Qle. lia. }
destruct (rem_nonneg r 60) as (y & Hy & Hyv & Hy0 & Hy1); [lia | exact Hr0 |].
rewrite Hy. change (inject_Z 60) with 60 in *. unfold floor, of_Z.
do 2 f_equal.
destruct (Z.eq_dec (n mod 1000)%Z 0%Z) as [Hz|Hnz].
- assert (Hrk : r == inject_Z (60 * a + s)).
  { apply Hex. subst a s. Z.div_mod_to_equations. lia. }
  rewrite inject_Z_plus, !inject_Z_mult in Hrk. change (inject_Z 60) with 60 in Hrk.
  assert (Hf : Qfloor (r / 60) = a) by (apply Qfloor_div; lra).
  rewrite Hf in Hyv. apply Qfloor_unique; lra.
- assert (Hq : (60000 * a + 1000 * s + 1 <= n <= 60000 * a + 1000 * s + 999)%Z)
    by (subst a s; Z.div_mod_to_equations; lia).
  destruct Hq as [Hq1 Hq2]. rewrite Zle_Qle in Hq1, Hq2.
  rewrite !inject_Z_plus, !inject_Z_mult in Hq1, Hq2.
  change (inject_Z 60000) with 60000 in *. change (inject_Z 1000) with 1000 in *.
  change (inject_Z 1) with 1 in *. change (inject_Z 999) with 999 in *.
  assert (Hf : Qfloor (r / 60) = a) by (apply Qfloor_div; lra).
  rewrite Hf in Hyv. apply Qfloor_unique; lra.
Qed.

Lemma millis_field :
exists ms, (0 <= ms < 1000)%Z
           /\ (ms = n mod 1000 \/ ms = n mod 1000 - 1)%Z
           /\ floor (rem (mul (Finite r) n1000) n1000) = of_Z ms.
Proof.
destruct Hr as (Hr0 & Hlo & Hhi & Hex). unfold n1000, of_Z, mul.
set (b := (n / 1000)%Z). set (u := (n mod 1000)%Z).
assert (Hb : (0 <= b < 360000)%Z) by (subst b; Z.div_mod_to_equations; lia).
assert (Hu : (0 <= u < 1000)%Z) by (subst u; Z.div_mod_to_equations; lia).
assert (Hnbu : n = (1000 * b + u)%Z) by (subst b u; Z.div_mod_to_equations; lia).
assert (Hbq : 0 <= inject_Z b <= 359999).
{ change 0 with (inject_Z 0). change 359999 with (inject_Z 359999).
  rewrite <- !Zle_Qle. lia. }
assert (Hnq : inject_Z n == 1000 * inject_Z b + inject_Z u).
{ rewrite Hnbu, inject_Z_plus, inject_Z_mult. reflexivity. }
change (inject_Z 1000) with 1000.
destruct (Z.eq_dec u 0%Z) as [Hz|Hnz].
- exists 0%Z. split; [lia|]. split; [left; lia|].
  assert (Hrk : r == inject_Z b) by (apply Hex; lia).
  assert (Hu0 : inject_Z u == 0) by (rewrite Hz; reflexivity).
  rewrite (rn_int (r * 1000) n) by (try lia; rewrite Hrk, Hnq, Hu0; ring).
  destruct (rem_nonneg (inject_Z n) 1000) as (y & Hy & Hyv & Hy0 & Hy1);
    [lia | rewrite <- (Zle_Qle 0); lia |].
  change (inject_Z 1000) with 1000 in *. change (Finite 1000) with (of_Z 1000).
  rewrite Hy. unfold floor, of_Z. do 2 f_equal.
  assert (Hf : Qfloor (inject_Z n / 1000) = b).
  { apply Qfloor_div; lra. }
  rewrite Hf in Hyv. apply Qfloor_unique; change (inject_Z 0) with 0; lra.
- assert (Huq : 1 <= inject_Z u <= 999).
  { change 1 with (inject_Z 1). change 999 with (inject_Z 999).
    rewrite <- !Zle_Qle. lia. }
  destruct (rn_close_wide (r * 1000)) as (x & Hx & Hx0 & Hxlo & Hxhi); [lra | lra |].
  rewrite Hx.
  destruct (rem_nonneg x 1000) as (y & Hy & Hyv & Hy0 & Hy1); [lia | exact Hx0 |].
  change (inject_Z 1000) with 1000 in *. change (Finite 1000) with (of_Z 1000).
  rewrite Hy.
  assert (Hf : Qfloor (x / 1000) = b) by (apply Qfloor_div; lra).
  rewrite Hf in Hyv.
  destruct (Qlt_le_dec y (inject_Z u)) as [Hlt|Hge].
  + exists (u - 1)%Z. split; [lia|]. split; [right; reflexivity|].
    unfold floor, of_Z. do 2 f_equal. apply Qfloor_unique;
      unfold Z.sub; rewrite inject_Z_plus, inject_Z_opp;
      change (inject_Z 1) with 1; lra.
  + exists u. split; [lia|]. split; [left; reflexivity|].
    unfold floor, of_Z. do 2 f_equal. apply Qfloor_unique; lra.
Qed.
End Fields.

Lemma in_range (k bound : nat) :
  (k < bound)%nat -> List.In (Z.of_nat k) (List.map Z.of_nat (List.seq 0 bound)).
Proof. intros Hk. apply in_map, in_seq. lia. Qed.

Lemma pad_two k :
  0 <= k < 100 ->
  Str.padStart 2 zero_char (Num.toString (Num.of_Z k)) = two_digits k.
Proof.
  intros Hk.
  assert (H : forallb (fun k => String.eqb
                         (Str.padStart 2 zero_char (Num.toString (Num.of_Z k)))
                         (two_digits k))
                (List.map Z.of_nat (List.seq 0 100)) = true)
    by (vm_compute; reflexivity).
  rewrite forallb_forall in H. apply String.eqb_eq.
  rewrite <- (Z2Nat.id k) by lia. apply H, in_range. lia.
Qed.

Lemma pad_three k :
  0 <= k < 1000 ->
  Str.padStart 3 zero_char (Num.toString (Num.of_Z k)) = three_digits k.
Proof.
  intros Hk.
  assert (H : forallb (fun k => String.eqb
                         (Str.padStart 3 zero_char (Num.toString (Num.of_Z k)))
                         (three_digits k))
                (List.map Z.of_nat (List.seq 0 1000)) = true)
    by (vm_compute; reflexivity).
  rewrite forallb_forall in H. apply String.eqb_eq.
  rewrite <- (Z2Nat.id k) by lia. apply H, in_range. lia.
Qed.

(** The formatter on a whole number of milliseconds below a hundred
    hours: the hours, minutes and seconds of the offset, and its
    millisecond or the one below. *)
Lemma formatTime_whole n :
  0 <= n < 360000000 ->
  exists ms,
    0 <= ms < 1000 /\ (ms = n mod 1000 \/ ms = n mod 1000 - 1)
    /\ formatTime (Num.div (Num.of_Z n) n1000)
       = clock (n / 3600000) ((n / 60000) mod 60) ((n / 1000) mod 60) ms.
Proof.
  intros Hn. destruct (seconds_of_div n Hn) as (r & Hdiv & Hr).
  destruct (millis_field n r Hn Hr) as (ms & Hms & Hmod & Hfield).
  exists ms. split; [exact Hms|]. split; [exact Hmod|].
  unfold formatTime. rewrite Hdiv.
  rewrite (hours_field n r Hn Hr), (minutes_field n r Hn Hr),
    (seconds_field n r Hn Hr), Hfield.
  rewrite !pad_two, pad_three by (try exact Hms; Z.div_mod_to_equations; lia).
  reflexivity.
Qed.

(** C6 as stated fails at both ends of the range: for [-1] millisecond
    every field of the stored timestamp carries a minus sign, and at 100
    hours the hours take a third digit. *)
Lemma stored_timestamp_out_of_shape :
  snd (post_flags env0 (params0 "")
         {| body_timestamp := Num.of_Z (-1); body_text := "typo" |} ([] : list Call))
  = [AddRecords "Flags"
       [{| vtt := "bkkjs22/intro_en.vtt"; timestamp := "-1:-1:-1.0-1";
           text := "typo" |}]]
  /\ snd (post_flags env0 (params0 "")
            {| body_timestamp := Num.of_Z 360000000; body_text := "typo" |}
            ([] : list Call))
     = [AddRecords "Flags"
          [{| vtt := "bkkjs22/intro_en.vtt"; timestamp := "100:00:00.000";
              text := "typo" |}]].
Proof. split; vm_compute; reflexivity. Qed.

(** The hours field counts whole hours: it does not wrap at 24 hours. *)
Example formatTime_hours_do_not_wrap :
  formatTime (Num.div (Num.of_Z 90000000) n1000) = "25:00:00.000".
Proof. vm_compute. reflexivity. Qed.

(** The milliseconds field can fall one short of the offset's. *)
Example formatTime_millisecond_short :
  formatTime (Num.div (Num.of_Z 8249157) n1000) = "02:17:29.156".
Proof. vm_compute. reflexivity. Qed.

(** C6, as amended: for every whole millisecond offset from 0 to below
    100 hours, the row the handler hands to the store, whatever the store,
    carries a timestamp of the shape [HH:MM:SS.mmm]: the whole hours of the
    offset on two digits (not reduced modulo 24), its minutes and seconds
    on two digits each, and on three digits its millisecond or the one
    below. *)
Theorem stored_timestamp_clock {S : Type} `{Grist S} env params text n (st : S) :
  0 <= n < 360000000 ->
  exists ms,
    0 <= ms < 1000 /\ (ms = n mod 1000 \/ ms = n mod 1000 - 1)
    /\ post_flags env params {| body_timestamp := Num.of_Z n; body_text := text |} st
       = reply env
           (addRecords "Flags"
              [{| vtt := vtt_of params;
                  timestamp := clock (n / 3600000) ((n / 60000) mod 60)
                                 ((n / 1000) mod 60) ms;
                  text := text |}] st).
Proof.
  intros Hn. destruct (formatTime_whole n Hn) as (ms & Hms & Hmod & Hfmt).
  exists ms. split; [exact Hms|]. split; [exact Hmod|].
  unfold post_flags. cbn [body_timestamp body_text]. rewrite Hfmt. reflexivity.
Qed.

Lemma stored_timestamp_clock_witness :
  0 <= 65000 < 360000000
  /\ exists ms,
       0 <= ms < 1000 /\ (ms = 65000 mod 1000 \/ ms = 65000 mod 1000 - 1)
       /\ post_flags env0 (params0 "")
            {| body_timestamp := Num.of_Z 65000; body_text := "typo" |}
            ([] : list Call)
          = reply env0
              (addRecords "Flags"
                 [{| vtt := vtt_of (params0 "");
                     timestamp := clock (65000 / 3600000) ((65000 / 60000) mod 60)
                                    ((65000 / 1000) mod 60) ms;
                     text := "typo" |}] []).
Proof.
  assert (Hn : 0 <= 65000 < 360000000) by lia.
  split; [exact Hn|].
  exact (stored_timestamp_clock env0 (params0 "") "typo" 65000 [] Hn).
Defined.

(** The end-to-end scenario of the specification on the observing store:
    the row stored for 65000 ms and the token answered for the id the
    store assigned, then the deletion with that token. *)
Example create_then_delete :
  post_flags env0 (params0 "")
    {| body_timestamp := Num.of_Z 65000; body_text := "typo" |} ([] : list Call)
  = (Ok "flag-1-c4ab428b41967eb3a71f98b9ce3d5774599dd304aa2be4b882668adfe486fdea",
     [AddRecords "Flags"
        [{| vtt := "bkkjs22/intro_en.vtt"; timestamp := "00:01:05.000";
            text := "typo" |}]])
  /\ delete_flags env0
       (params0 "flag-1-c4ab428b41967eb3a71f98b9ce3d5774599dd304aa2be4b882668adfe486fdea")
       ([] : list Call)
     = (Ok tt, [DeleteRecords "Flags" [Num.of_Z 1]])
  /\ delete_flags env0 (params0 "flag-1-deadbeef") ([] : list Call)
     = (Throw "Invalid flag ID", [])
  /\ delete_flags env0
       (params0 "flag-2-c4ab428b41967eb3a71f98b9ce3d5774599dd304aa2be4b882668adfe486fdea")
       ([] : list Call)
     = (Throw "Invalid flag ID", []).
Proof. split; [|split; [|split]]; vm_compute; reflexivity. Qed.

(** ** The video-id pattern *)

Lemma append_assoc (a b c : string) : (a +:+ b) +:+ c = a +:+ (b +:+ c).
Proof.
  induction a as [|x a IH]; [reflexivity|].
  rewrite !append_cons, IH. reflexivity.
Qed.

Lemma append_length (a b : string) :
  String.length (a +:+ b) = (String.length a + String.length b)%nat.
Proof.
  induction a as [|x a IH]; [reflexivity|].
  rewrite append_cons. simpl. rewrite IH. reflexivity.
Qed.

Lemma strip_prefix_append p s : Str.strip_prefix p (p +:+ s) = Some s.
Proof.
  induction p as [|c p IH]; [destruct s; reflexivity|].
  rewrite append_cons. simpl. rewrite Ascii.eqb_refl. exact IH.
Qed.

Lemma strip_prefix_Some p s r : Str.strip_prefix p s = Some r -> s = p +:+ r.
Proof.
  revert s. induction p as [|c p IH]; intros s H.
  - destruct s; simpl in H; injection H as <-; reflexivity.
  - destruct s as [|d s]; simpl in H; [discriminate|].
    destruct (Ascii.eqb_spec c d) as [->|]; [|discriminate].
    rewrite append_cons, <- (IH _ H). reflexivity.
Qed.

Lemma strip_any_Some ps s r :
  Str.strip_any ps s = Some r -> exists p, List.In p ps /\ s = p +:+ r.
Proof.
  induction ps as [|p ps IH]; simpl; [discriminate|].
  destruct (Str.strip_prefix p s) eqn:E.
  - intros [= <-]. exists p. split; [left; reflexivity | apply strip_prefix_Some, E].
  - intros H. destruct (IH H) as (p' & Hin & Hs). exists p'. split; [right|]; assumption.
Qed.

Lemma strip_prefix_append_inv p q s r :
  Str.strip_prefix p (q +:+ s) = Some r ->
  Str.strip_prefix p q <> None \/ Str.strip_prefix q p <> None.
Proof.
  revert q. induction p as [|c p IH]; intros q H.
  - left. destruct q; discriminate.
  - destruct q as [|d q]; [right; discriminate|].
    rewrite append_cons in H. simpl in *.
    destruct (Ascii.eqb_spec c d) as [->|]; [|discriminate].
    rewrite Ascii.eqb_refl. apply IH, H.
Qed.

Lemma whitespace_prefix_free : prefix_free Str.whitespace = true.
Proof. vm_compute. reflexivity. Qed.

Lemma strip_any_whitespace w s :
  List.In w Str.whitespace -> Str.strip_any Str.whitespace (w +:+ s) = Some s.
Proof.
  intros Hw. pose proof whitespace_prefix_free as Hpf. unfold prefix_free in Hpf.
  rewrite forallb_forall in Hpf.
  assert (Hgen : forall ps, (forall p, List.In p ps -> List.In p Str.whitespace) ->
            List.In w ps -> Str.strip_any ps (w +:+ s) = Some s).
  { induction ps as [|p ps IH]; intros Hsub Hin; [destruct Hin|].
    simpl. destruct (Str.strip_prefix p (w +:+ s)) as [r|] eqn:E.
    - assert (Hp : List.In p Str.whitespace) by (apply Hsub; left; reflexivity).
      pose proof (Hpf p Hp) as Hpw. rewrite forallb_forall in Hpw. specialize (Hpw w Hw).
      pose proof (Hpf w Hw) as Hwp. rewrite forallb_forall in Hwp. specialize (Hwp p Hp).
      assert (Heq : p = w).
      { destruct (String.eqb_spec p w) as [|Hne]; [assumption|].
        destruct (String.eqb_spec w p) as [|_]; [congruence|]. simpl in *.
        destruct (strip_prefix_append_inv _ _ _ _ E) as [H1|H1].
        - destruct (Str.strip_prefix p w); [discriminate | congruence].
        - destruct (Str.strip_prefix w p); [discriminate | congruence]. }
      subst p. rewrite strip_prefix_append in E. symmetry. exact E.
    - destruct Hin as [->|Hin]; [rewrite strip_prefix_append in E; discriminate|].
      apply IH; [intros q Hq; apply Hsub; right; exact Hq | exact Hin]. }
  apply Hgen; [trivial | exact Hw].
Qed.

Lemma strip_any_head ps c s r :
  Str.strip_any ps (String c s) = Some r ->
  forallb (fun p => negb (String.eqb p EmptyString)) ps = true ->
  existsb (head_is (Ascii.eqb c)) ps = true.
Proof.
  induction ps as [|p ps IH]; simpl; [discriminate|].
  intros H Hne. apply andb_true_iff in Hne as [Hp Hps].
  destruct (Str.strip_prefix p (String c s)) eqn:E.
  - destruct p as [|a p]; [discriminate|].
    apply strip_prefix_head in E. subst a. simpl. rewrite Ascii.eqb_refl. reflexivity.
  - rewrite (IH H Hps). apply orb_true_r.
Qed.

Lemma strip_any_not_ws c s :
  ws_head c = false -> Str.strip_any Str.whitespace (String c s) = None.
Proof.
  intros Hc. destruct (Str.strip_any Str.whitespace (String c s)) eqn:E; [|reflexivity].
  apply strip_any_head in E; [|reflexivity]. unfold ws_head in Hc. congruence.
Qed.

Lemma id_char_not_ws c : is_id_char c = true -> ws_head c = false.
Proof. destruct c as [[] [] [] [] [] [] [] []]; vm_compute; congruence. Qed.

Lemma quote_not_ws c : is_quote c = true -> ws_head c = false.
Proof. destruct c as [[] [] [] [] [] [] [] []]; vm_compute; congruence. Qed.

Lemma quote_not_id c : is_quote c = true -> is_id_char c = false.
Proof. destruct c as [[] [] [] [] [] [] [] []]; vm_compute; congruence. Qed.

Lemma whitespace_nonempty :
  forallb (fun p => negb (String.eqb p EmptyString)) Str.whitespace = true.
Proof. reflexivity. Qed.

Lemma strip_any_shorter s r :
  Str.strip_any Str.whitespace s = Some r ->
  (String.length r < String.length s)%nat.
Proof.
  intros H. destruct (strip_any_Some _ _ _ H) as (p & Hin & ->).
  rewrite append_length.
  pose proof whitespace_nonempty as Hne. rewrite forallb_forall in Hne.
  specialize (Hne p Hin). destruct p; [discriminate | simpl; lia].
Qed.

Lemma span_append p s : fst (Str.span p s) +:+ snd (Str.span p s) = s.
Proof.
  induction s as [|c s IH]; simpl; [reflexivity|].
  destruct (p c); [|reflexivity].
  destruct (Str.span p s) as [a b]. simpl in *. rewrite append_cons, IH. reflexivity.
Qed.

Lemma span_rest_head p s : head_is p (snd (Str.span p s)) = false.
Proof.
  induction s as [|c s IH]; simpl; [reflexivity|].
  destruct (p c) eqn:E; [|simpl; exact E].
  destruct (Str.span p s) as [a b]. exact IH.
Qed.

Lemma span_all_fst p s : Str.all p (fst (Str.span p s)) = true.
Proof.
  induction s as [|c s IH]; simpl; [reflexivity|].
  destruct (p c) eqn:E; [|reflexivity].
  destruct (Str.span p s) as [a b]. simpl in *. rewrite E, IH. reflexivity.
Qed.

Lemma span_maximal p a b :
  Str.all p a = true -> head_is p b = false -> Str.span p (a +:+ b) = (a, b).
Proof.
  intros Ha Hb. induction a as [|c a IH].
  - destruct b as [|d b]; [reflexivity|]. simpl in *. rewrite Hb. reflexivity.
  - simpl in Ha. apply andb_true_iff in Ha as [Hc Ha].
    rewrite append_cons. simpl. rewrite Hc, (IH Ha). reflexivity.
Qed.

Lemma substring_prefix a b :
  String.substring 0 (String.length a) (a +:+ b) = a.
Proof.
  induction a as [|c a IH]; [destruct b; reflexivity|].
  rewrite append_cons. simpl. rewrite IH. reflexivity.
Qed.

Lemma consumed_append a b : Regex.consumed (a +:+ b) b = a.
Proof.
  unfold Regex.consumed. rewrite append_length.
  replace (String.length a + String.length b - String.length b)%nat
    with (String.length a) by lia.
  apply substring_prefix.
Qed.

Lemma span_length p s :
  (String.length (snd (Str.span p s)) <= String.length s)%nat.
Proof.
  rewrite <- (span_append p s) at 2. rewrite append_length. lia.
Qed.

Section PatternRun.

Lemma orelse_None_r (x : option (option string)) : Regex.orelse x None = x.
Proof. destruct x; reflexivity. Qed.

(** A greedy run of a class in front of a continuation that cannot fail
    takes the longest run. *)
Lemma star_class p (K : Regex.cont) :
  (forall s c, K s c <> None) ->
  forall n s cap, (String.length s <= n)%nat ->
  Regex.star_loop (A := option string) (Regex.run (Regex.Class p)) K n s cap
  = K (snd (Str.span p s)) cap.
Proof.
  intros HK. induction n as [|n IH]; intros s cap Hlen.
  - destruct s; [reflexivity | simpl in Hlen; lia].
  - cbn [Regex.star_loop Regex.run]. destruct s as [|c s]; [reflexivity|].
    cbn [Str.span]. destruct (p c) eqn:Hc; [|reflexivity].
    replace (String.length s <? String.length (String c s))%nat with true
      by (symmetry; apply Nat.ltb_lt; simpl; lia).
    simpl in Hlen. rewrite IH by lia.
    destruct (Str.span p s) as [a b] eqn:E. cbn [fst snd].
    pose proof (HK b cap). destruct (K b cap); [reflexivity | congruence].
Qed.

Lemma alternatives_whitespace (K : Regex.cont) s cap :
  Regex.alternatives (A := option string) Str.whitespace s cap K
  = match Str.strip_any Str.whitespace s with
    | Some s' => K s' cap
    | None => None
    end.
Proof.
  assert (Hgen : forall ps, (forall p, List.In p ps -> List.In p Str.whitespace) ->
            Regex.alternatives (A := option string) ps s cap K
            = match Str.strip_any ps s with
              | Some s' => K s' cap
              | None => None
              end).
  { induction ps as [|p ps IH]; intros Hsub; [reflexivity|].
    simpl. rewrite IH by (intros q Hq; apply Hsub; right; exact Hq).
    destruct (Str.strip_prefix p s) as [s'|] eqn:E; [|reflexivity].
    destruct (K s' cap) eqn:EK; [reflexivity|]. simpl.
    destruct (Str.strip_any ps s) as [s''|] eqn:E'; [|reflexivity].
    destruct (strip_any_Some _ _ _ E') as (q & Hq & Hs).
    apply strip_prefix_Some in E.
    assert (H1 : Str.strip_any Str.whitespace s = Some s')
      by (rewrite E; apply strip_any_whitespace, Hsub; left; reflexivity).
    assert (H2 : Str.strip_any Str.whitespace s = Some s'')
      by (rewrite Hs; apply strip_any_whitespace, Hsub; right; exact Hq).
    rewrite H1 in H2. injection H2 as <-. exact EK. }
  apply Hgen. trivial.
Qed.

(** A greedy run of white space in front of a continuation that fails on
    white space skips all of it. *)
Lemma star_whitespace (K : Regex.cont) :
  (forall s s' cap, Str.strip_any Str.whitespace s = Some s' -> K s cap = None) ->
  forall n s cap,
  Regex.star_loop (A := option string) (Regex.run (Regex.AnyOf Str.whitespace)) K n s cap
  = K (Str.trim_fuel Str.whitespace n s) cap.
Proof.
  intros HK. induction n as [|n IH]; intros s cap; [reflexivity|].
  cbn [Regex.star_loop Regex.run Str.trim_fuel]. rewrite alternatives_whitespace.
  destruct (Str.strip_any Str.whitespace s) as [s'|] eqn:E; [|reflexivity].
  replace (String.length s' <? String.length s)%nat with true
    by (symmetry; apply Nat.ltb_lt, strip_any_shorter, E).
  rewrite IH, (HK s s' cap E). apply orelse_None_r.
Qed.

Lemma run_seq_eq r1 r2 s cap (k : Regex.cont (A := option string)) :
  Regex.run (Regex.Seq r1 r2) s cap k
  = Regex.run r1 s cap (fun s' cap' => Regex.run r2 s' cap' k).
Proof. reflexivity. Qed.

Lemma run_star_eq r s cap (k : Regex.cont (A := option string)) :
  Regex.run (Regex.Star r) s cap k
  = Regex.star_loop (Regex.run r) k (String.length s) s cap.
Proof. reflexivity. Qed.

Lemma run_class_eq p c s cap (k : Regex.cont (A := option string)) :
  Regex.run (Regex.Class p) (String c s) cap k = if p c then k s cap else None.
Proof. reflexivity. Qed.

Lemma run_group s cap :
  Regex.run (Regex.Group (Regex.Plus (Regex.Class is_id_char))) s cap k0
  = token_here s.
Proof.
  unfold token_here.
  change (Regex.run (Regex.Group (Regex.Plus (Regex.Class is_id_char))) s cap k0)
    with (Regex.run (Regex.Seq (Regex.Class is_id_char)
                       (Regex.Star (Regex.Class is_id_char))) s cap
            (fun s' _ => k0 s' (Some (Regex.consumed s s')))).
  rewrite run_seq_eq. destruct s as [|c s]; [reflexivity|].
  rewrite run_class_eq. cbn [head_is].
  destruct (is_id_char c) eqn:Hc; [|reflexivity].
  rewrite run_star_eq, star_class by (trivial; discriminate).
  unfold k0. do 2 f_equal. cbn [Str.span]. rewrite Hc.
  pose proof (span_append is_id_char s) as Happ.
  destruct (Str.span is_id_char s) as [a b]. cbn [fst snd] in *.
  rewrite <- Happ at 1. rewrite <- append_cons. apply consumed_append.
Qed.

Lemma after_space_eq s cap : after_space s cap = token_here (skip_quote s).
Proof.
  unfold after_space. rewrite run_seq_eq.
  change (Regex.run (Regex.Opt (Regex.Class is_quote)) s cap
            (fun s' cap' =>
               Regex.run (Regex.Group (Regex.Plus (Regex.Class is_id_char))) s' cap' k0))
    with (Regex.orelse
            (Regex.run (Regex.Class is_quote) s cap
               (fun s' cap' =>
                  Regex.run (Regex.Group (Regex.Plus (Regex.Class is_id_char))) s' cap' k0))
            (Regex.run (Regex.Group (Regex.Plus (Regex.Class is_id_char))) s cap k0)).
  rewrite run_group. destruct s as [|c s]; [reflexivity|].
  rewrite run_class_eq, run_group. unfold skip_quote.
  destruct (is_quote c) eqn:Hq.
  - unfold token_here at 2. cbn [head_is]. rewrite (quote_not_id c Hq).
    apply orelse_None_r.
  - reflexivity.
Qed.

Lemma after_space_whitespace s s' cap :
  Str.strip_any Str.whitespace s = Some s' -> after_space s cap = None.
Proof.
  intros Hs. rewrite after_space_eq. destruct s as [|c s]; [discriminate|].
  assert (Hws : ws_head c = true) by (eapply strip_any_head; [exact Hs | reflexivity]).
  unfold skip_quote, token_here.
  destruct (is_quote c) eqn:Hq; [apply quote_not_ws in Hq; congruence|].
  cbn [head_is].
  destruct (is_id_char c) eqn:Hi; [apply id_char_not_ws in Hi; congruence|].
  reflexivity.
Qed.

Lemma run_pattern s :
  Regex.run youtube_pattern s None k0
  = match match_here s with Some tok => Some (Some tok) | None => None end.
Proof.
  unfold youtube_pattern, match_here. rewrite run_seq_eq.
  cbn [Regex.run]. destruct (Str.strip_prefix "youtube:" s) as [s1|]; [|reflexivity].
  change (Regex.star_loop _ _ (String.length s1) s1 None)
    with (Regex.star_loop (A := option string) (Regex.run (Regex.AnyOf Str.whitespace))
            after_space (String.length s1) s1 None).
  rewrite (star_whitespace after_space after_space_whitespace).
  fold (Str.trimStart s1). rewrite after_space_eq. unfold token_here.
  destruct (head_is is_id_char (skip_quote (Str.trimStart s1))); reflexivity.
Qed.
End PatternRun.

Lemma is_quote_cases c : is_quote c = true -> c = double_quote \/ c = single_quote.
Proof.
  unfold is_quote. intros H. apply orb_true_iff in H as [H|H];
    apply Ascii.eqb_eq in H; auto.
Qed.

Lemma id_char_not_quote c : is_id_char c = true -> is_quote c = false.
Proof.
  intros Hi. destruct (is_quote c) eqn:Hq; [|reflexivity].
  apply quote_not_id in Hq. congruence.
Qed.

Lemma trim_fuel_decompose n s :
  exists ws, List.Forall (fun w => List.In w Str.whitespace) ws
             /\ s = concat_all ws +:+ Str.trim_fuel Str.whitespace n s.
Proof.
  revert s. induction n as [|n IH]; intros s.
  - exists []. split; [constructor | reflexivity].
  - cbn [Str.trim_fuel]. destruct (Str.strip_any Str.whitespace s) as [r|] eqn:E.
    + destruct (strip_any_Some _ _ _ E) as (w & Hw & ->).
      destruct (IH r) as (ws & Hws & Hr). exists (w :: ws).
      split; [constructor; assumption|].
      cbn [concat_all]. rewrite append_assoc, <- Hr. reflexivity.
    + exists []. split; [constructor | reflexivity].
Qed.

Lemma trim_fuel_concat ws : forall n t,
  List.Forall (fun w => List.In w Str.whitespace) ws ->
  (List.length ws <= n)%nat ->
  Str.strip_any Str.whitespace t = None ->
  Str.trim_fuel Str.whitespace n (concat_all ws +:+ t) = t.
Proof.
  induction ws as [|w ws IH]; intros n t Hws Hn Ht.
  - change (concat_all [] +:+ t) with t. destruct n; cbn [Str.trim_fuel];
      [reflexivity | rewrite Ht; reflexivity].
  - inversion Hws as [|? ? Hw Hws']; subst. destruct n; [simpl in Hn; lia|].
    cbn [Str.trim_fuel concat_all]. rewrite append_assoc.
    rewrite strip_any_whitespace by exact Hw.
    apply IH; [exact Hws' | simpl in Hn; lia | exact Ht].
Qed.

Lemma concat_all_length ws t :
  List.Forall (fun w => List.In w Str.whitespace) ws ->
  (List.length ws <= String.length (concat_all ws +:+ t))%nat.
Proof.
  induction 1 as [|w ws Hw Hws IH]; [simpl; lia|].
  cbn [concat_all]. rewrite append_assoc, append_length. simpl.
  pose proof whitespace_nonempty as Hne. rewrite forallb_forall in Hne.
  specialize (Hne w Hw). destruct w; [discriminate | simpl; lia].
Qed.

(** The scanner finds a token exactly where the key, white space, an
    optional quote and a longest run of id characters stand. *)
Lemma match_here_key_value s tok :
  match_here s = Some tok <-> key_value_here s tok.
Proof.
  unfold match_here, key_value_here. split.
  - destruct (Str.strip_prefix "youtube:" s) as [s1|] eqn:E; [|discriminate].
    apply strip_prefix_Some in E. cbv zeta.
    destruct (trim_fuel_decompose (String.length s1) s1) as (ws & Hws & Hs1).
    fold (Str.trimStart s1) in Hs1. set (s2 := Str.trimStart s1) in *.
    destruct (head_is is_id_char (skip_quote s2)) eqn:Hh; [|discriminate].
    intros [= <-].
    assert (Hq : exists q, is_optional_quote q /\ s2 = q +:+ skip_quote s2).
    { unfold skip_quote. destruct s2 as [|c s2']; [exists EmptyString; split; [left|]; reflexivity|].
      destruct (is_quote c) eqn:Hc.
      - destruct (is_quote_cases c Hc) as [->| ->];
          [exists (String double_quote EmptyString) | exists (String single_quote EmptyString)];
          (split; [right; auto | reflexivity]).
      - exists EmptyString. split; [left|]; reflexivity. }
    destruct Hq as (q & Hq & Hs2). set (s3 := skip_quote s2) in *.
    exists ws, q, (snd (Str.span is_id_char s3)).
    split; [rewrite span_append, <- Hs2, <- Hs1; exact E|].
    split; [exact Hws|]. split; [exact Hq|].
    split; [|split; [apply span_all_fst | apply span_rest_head]].
    destruct s3 as [|c s3']; [discriminate|]. cbn [head_is] in Hh.
    cbn [Str.span]. rewrite Hh. destruct (Str.span is_id_char s3'). discriminate.
  - intros (ws & q & rest & -> & Hws & Hq & Hne & Hall & Hrest).
    rewrite strip_prefix_append. cbv zeta.
    assert (Hhead : head_is is_id_char (tok +:+ rest) = true).
    { destruct tok as [|c tok]; [congruence|]. simpl in Hall.
      apply andb_true_iff in Hall as [Hc _]. exact Hc. }
    assert (Hskip : skip_quote (q +:+ tok +:+ rest) = tok +:+ rest).
    { destruct Hq as [->|[->| ->]].
      - change (EmptyString +:+ tok +:+ rest) with (tok +:+ rest).
        destruct tok as [|c tok]; [congruence|]. rewrite append_cons in *.
        cbn [head_is] in Hhead. unfold skip_quote.
        rewrite (id_char_not_quote c Hhead). reflexivity.
      - reflexivity.
      - reflexivity. }
    assert (Hnows : Str.strip_any Str.whitespace (q +:+ tok +:+ rest) = None).
    { destruct Hq as [->|[->| ->]].
      - change (EmptyString +:+ tok +:+ rest) with (tok +:+ rest).
        destruct tok as [|c tok]; [congruence|]. rewrite append_cons in *.
        apply strip_any_not_ws, id_char_not_ws. exact Hhead.
      - apply strip_any_not_ws. reflexivity.
      - apply strip_any_not_ws. reflexivity. }
    unfold Str.trimStart. rewrite trim_fuel_concat
      by (trivial; apply concat_all_length; exact Hws).
    rewrite Hskip, Hhead, span_maximal by assumption. reflexivity.
Qed.

Lemma search_eq s :
  Regex.search youtube_pattern s
  = match match_here s with
    | Some tok => Some (Some tok)
    | None => match s with
              | EmptyString => None
              | String _ s' => Regex.search youtube_pattern s'
              end
    end.
Proof.
  destruct s as [|c s]; cbn [Regex.search];
    change (fun (_ : string) (cap : option string) => Some cap) with k0;
    rewrite run_pattern; destruct (match_here _); reflexivity.
Qed.

(** The search answers the token at the leftmost offset where the scanner
    finds one, and fails when there is none. *)
Lemma search_leftmost content :
  (Regex.search youtube_pattern content = None
   /\ forall a b, content = a +:+ b -> match_here b = None)
  \/ exists a b tok,
       content = a +:+ b /\ match_here b = Some tok
       /\ Regex.search youtube_pattern content = Some (Some tok)
       /\ forall a' b', content = a' +:+ b' ->
            (String.length a' < String.length a)%nat -> match_here b' = None.
Proof.
  induction content as [|c content IH].
  - rewrite search_eq. destruct (match_here EmptyString) as [tok|] eqn:E.
    + right. exists EmptyString, EmptyString, tok.
      repeat split; try assumption. intros a' b' _ Hlen. simpl in Hlen. lia.
    + left. split; [reflexivity|]. intros a b Hab.
      destruct a; [|rewrite append_cons in Hab; discriminate].
      change (EmptyString +:+ b) with b in Hab. subst b. exact E.
  - rewrite search_eq. destruct (match_here (String c content)) as [tok|] eqn:E.
    + right. exists EmptyString, (String c content), tok.
      repeat split; try assumption. intros a' b' _ Hlen. simpl in Hlen. lia.
    + destruct IH as [[Hnone Hall]|(a & b & tok & Hab & Hm & Hs & Hmin)].
      * left. split; [exact Hnone|]. intros a' b' Hab.
        destruct a' as [|d a'];
          [change (EmptyString +:+ b') with b' in Hab; subst b'; exact E|].
        rewrite append_cons in Hab. injection Hab as _ Hab. apply (Hall a' b' Hab).
      * right. exists (String c a), b, tok. rewrite append_cons, <- Hab.
        repeat split; try assumption. intros a' b' Hab' Hlen.
        destruct a' as [|d a'];
          [change (EmptyString +:+ b') with b' in Hab'; subst b'; exact E|].
        rewrite append_cons in Hab'. injection Hab' as _ Hab'.
        apply (Hmin a' b' Hab'). simpl in Hlen. lia.
Qed.

Lemma append_inj_length (a b a' b' : string) :
  a +:+ b = a' +:+ b' -> String.length a = String.length a' -> a = a' /\ b = b'.
Proof.
  revert a'. induction a as [|c a IH]; intros [|c' a'] Heq Hlen;
    try (simpl in Hlen; discriminate).
  - split; [reflexivity | exact Heq].
  - rewrite !append_cons in Heq. injection Heq as -> Heq.
    simpl in Hlen. injection Hlen as Hlen.
    destruct (IH a' Heq Hlen) as [-> ->]. split; reflexivity.
Qed.

(** C8: when the content holds the key followed by white space, an
    optional quote and a token, extraction answers the token of the
    leftmost such occurrence; when the content holds no [youtube:] key at
    all, extraction fails with its error. *)
Theorem parseYouTubeId_extracts content :
  (forall i tok,
     occurrence_at content i tok ->
     (forall j tok', (j < i)%nat -> ~ occurrence_at content j tok') ->
     parseYouTubeId content = Ok (Text tok))
  /\ ((exists i tok, occurrence_at content i tok) ->
      exists i tok,
        occurrence_at content i tok /\ parseYouTubeId content = Ok (Text tok))
  /\ (~ has_key content ->
      parseYouTubeId content = Throw "YouTube ID not found in content").
Proof.
  unfold parseYouTubeId.
  destruct (search_leftmost content)
    as [[Hnone Hall]|(a & b & t & Hab & Hm & Hs & Hmin)].
  - rewrite Hnone. split; [|split].
    + intros i tok (pre & s & Hc & _ & Hkv) _.
      apply match_here_key_value in Hkv. rewrite (Hall pre s Hc) in Hkv. discriminate.
    + intros (i & tok & pre & s & Hc & _ & Hkv).
      apply match_here_key_value in Hkv. rewrite (Hall pre s Hc) in Hkv. discriminate.
    + reflexivity.
  - rewrite Hs. cbn [group1].
    assert (Hocc : occurrence_at content (String.length a) t).
    { exists a, b. split; [exact Hab|]. split; [reflexivity|].
      apply match_here_key_value, Hm. }
    split; [|split].
    + intros i tok (pre & s & Hc & Hi & Hkv) Hleft.
      apply match_here_key_value in Hkv.
      destruct (Nat.lt_trichotomy (String.length a) i) as [Hlt|[Heq|Hgt]].
      * exfalso. exact (Hleft _ t Hlt Hocc).
      * rewrite Hab in Hc.
        destruct (append_inj_length _ _ _ _ Hc) as [_ <-]; [lia|].
        congruence.
      * rewrite (Hmin pre s Hc) in Hkv by lia. discriminate.
    + intros _. exists (String.length a), t. split; [exact Hocc | reflexivity].
    + intros Hkey. exfalso. apply Hkey. unfold match_here in Hm.
      destruct (Str.strip_prefix "youtube:" b) as [s1|] eqn:E; [|discriminate].
      apply strip_prefix_Some in E. exists a, s1. rewrite Hab, E. reflexivity.
Qed.

Lemma parseYouTubeId_extracts_witness :
  parseYouTubeId quoted_example = Ok (Text "abc123")
  /\ parseYouTubeId "title" = Throw "YouTube ID not found in content".
Proof.
  split.
  - apply (proj1 (parseYouTubeId_extracts quoted_example) 0%nat "abc123").
    + exists EmptyString, quoted_example. split; [reflexivity|]. split; [reflexivity|].
      exists [" "], (String double_quote EmptyString), (String double_quote EmptyString).
      split; [reflexivity|].
      split; [repeat constructor; vm_compute; tauto|].
      split; [right; left; reflexivity|].
      split; [discriminate|]. split; reflexivity.
    + intros j tok' Hj. apply Nat.nlt_0_r in Hj. destruct Hj.
  - apply (proj2 (proj2 (parseYouTubeId_extracts "title"))).
    intros (pre & post & Heq).
    apply (f_equal String.length) in Heq. rewrite !append_length in Heq.
    simpl in Heq. lia.
Defined.

(** The example of the specification. *)
Example parseYouTubeId_quoted :
  parseYouTubeId quoted_example = Ok (Text "abc123").
Proof. vm_compute. reflexivity. Qed.

(** * Further properties *)

(** ** More on the flag signer *)

Lemma split_length_sep sep s :
  Str.contains sep s = true -> (2 <= List.length (Str.split sep s))%nat.
Proof.
  induction s as [|c s IH]; simpl; [discriminate|].
  pose proof (split_nonempty sep s) as Hne.
  destruct (Ascii.eqb c sep); simpl.
  - intros _. destruct (Str.split sep s); [congruence | simpl; lia].
  - intros Hs. specialize (IH Hs). destruct (Str.split sep s); [congruence | exact IH].
Qed.

(** Appending a separator and more text leaves the parts as they are. *)
Lemma split_append_keeps sep t : forall s i,
  (i < List.length (Str.split sep s))%nat ->
  nth_error (Str.split sep (s +:+ String sep t)) i = nth_error (Str.split sep s) i.
Proof.
  induction s as [|c s IH]; intros i Hi.
  - change (EmptyString +:+ String sep t) with (String sep t).
    cbn [Str.split]. rewrite Ascii.eqb_refl.
    simpl in Hi. destruct i; [reflexivity | lia].
  - rewrite append_cons. cbn [Str.split]. cbn [Str.split] in Hi.
    pose proof (split_nonempty sep s) as Hne.
    pose proof (split_nonempty sep (s +:+ String sep t)) as Hne'.
    destruct (Ascii.eqb c sep).
    + destruct i as [|i]; [reflexivity|]. simpl in *. apply IH. lia.
    + destruct (Str.split sep s) as [|p ps] eqn:Es; [congruence|].
      destruct (Str.split sep (s +:+ String sep t)) as [|p' ps'] eqn:Es'; [congruence|].
      destruct i as [|i].
      * specialize (IH 0%nat). simpl in IH, Hi. simpl. f_equal. f_equal.
        assert (Hp : Some p' = Some p) by (apply IH; lia). congruence.
      * specialize (IH (S i)). simpl in IH, Hi. simpl. apply IH. lia.
Qed.

Lemma minted_compared secret n :
  index (Str.split Str.hyphen
           ("flag-" +:+ Num.toString n +:+ "-" +:+ sign secret (Num.toString n))) 2
  = Text (compared secret n).
Proof.
  unfold compared. set (text := Num.toString n).
  destruct (Str.contains Str.hyphen text) eqn:Hc.
  - change ("flag-" +:+ text +:+ "-" +:+ sign secret text)
      with ("flag" +:+ String Str.hyphen (text +:+ String Str.hyphen (sign secret text))).
    rewrite split_append_sep by reflexivity.
    pose proof (split_length_sep _ _ Hc) as Hlen.
    change (index ("flag" :: Str.split Str.hyphen
                               (text +:+ String Str.hyphen (sign secret text))) 2)
      with (match nth_error (Str.split Str.hyphen
                               (text +:+ String Str.hyphen (sign secret text))) 1 with
            | Some s => Text s
            | None => Undefined
            end).
    rewrite split_append_keeps by lia.
    destruct (Str.split Str.hyphen text) as [|a [|b l]]; simpl in Hlen; try lia.
    reflexivity.
  - rewrite split_minted by (trivial; apply hmac_hex_no_hyphen). reflexivity.
Qed.

Lemma verify_iff env secret token n :
  secret_of env secret ->
  verify env token = Ok n
  <-> n = ToNumber (index (Str.split Str.hyphen token) 1)
      /\ nth_error (Str.split Str.hyphen token) 2
         = Some (compared secret (ToNumber (index (Str.split Str.hyphen token) 1))).
Proof.
  intros Hs. rewrite (verify_unfold _ _ _ Hs). cbv zeta.
  set (parts := Str.split Str.hyphen token). set (n0 := ToNumber (index parts 1)).
  rewrite minted_compared. unfold index at 1.
  destruct (nth_error parts 2) as [sig|]; cbn [strict_eq].
  - destruct (String.eqb_spec sig (compared secret n0)) as [->|Hne]; split.
    + intros [= <-]. split; reflexivity.
    + intros [-> _]. reflexivity.
    + discriminate.
    + intros [_ [= Heq]]. contradiction.
  - split; [discriminate | intros [_ Heq]; discriminate].
Qed.

Lemma verify_cases env secret token :
  secret_of env secret ->
  verify env token = Throw "Invalid flag ID"
  \/ exists n, verify env token = Ok n.
Proof.
  intros Hs. rewrite (verify_unfold _ _ _ Hs). cbv zeta.
  destruct (strict_eq _ _); [right; eauto | left; reflexivity].
Qed.

(** What the [DELETE] handler accepts, in full: under a set secret it goes
    on to the deletion exactly when the third part of the token is the
    compared string of the number the second part coerces to, and it then
    deletes that number; every other token is rejected with the store
    untouched. When that number prints with a hyphen the compared string
    does not depend on the secret. *)
Theorem delete_accepts_iff {S : Type} `{Grist S} env secret params (st : S) :
  secret_of env secret ->
  let parts := Str.split Str.hyphen (flagId params) in
  let n := ToNumber (index parts 1) in
  (nth_error parts 2 = Some (compared secret n) ->
   delete_flags env params st = finish (deleteRecords "Flags" [n] st))
  /\ (nth_error parts 2 <> Some (compared secret n) ->
      delete_flags env params st = (Throw "Invalid flag ID", st))
  /\ (Str.contains Str.hyphen (Num.toString n) = true ->
      forall secret', compared secret' n = compared secret n).
Proof.
  intros Hs parts n. split; [|split].
  - intros Hsig. rewrite delete_flags_verify.
    rewrite (proj2 (verify_iff env secret (flagId params) n Hs)) by auto.
    reflexivity.
  - intros Hsig. apply delete_flags_throw.
    destruct (verify_cases env secret (flagId params) Hs) as [Hv|[m Hv]]; [exact Hv|].
    apply (verify_iff env secret _ m Hs) in Hv as [_ Hv]. contradiction.
  - intros Hc secret'. unfold compared. rewrite Hc. reflexivity.
Qed.

Lemma delete_accepts_iff_witness :
  secret_of env0 "s3cret"
  /\ let parts := Str.split Str.hyphen (flagId (params0 "flag-0.0000001-7")) in
     let n := ToNumber (index parts 1) in
     (nth_error parts 2 = Some (compared "s3cret" n) ->
      delete_flags env0 (params0 "flag-0.0000001-7") ([] : list Call)
      = finish (deleteRecords "Flags" [n] []))
     /\ (nth_error parts 2 <> Some (compared "s3cret" n) ->
         delete_flags env0 (params0 "flag-0.0000001-7") ([] : list Call)
         = (Throw "Invalid flag ID", []))
     /\ (Str.contains Str.hyphen (Num.toString n) = true ->
         forall secret', compared secret' n = compared "s3cret" n).
Proof.
  assert (Hs : secret_of env0 "s3cret") by (split; [reflexivity | discriminate]).
  split; [exact Hs|].
  exact (delete_accepts_iff env0 "s3cret" (params0 "flag-0.0000001-7") [] Hs).
Defined.

Lemma split_parts_no_sep sep s p :
  List.In p (Str.split sep s) -> Str.contains sep p = false.
Proof.
  revert p. induction s as [|c s IH]; intros p; cbn [Str.split].
  - intros [<-|[]]. reflexivity.
  - pose proof (split_nonempty sep s) as Hne.
    destruct (Ascii.eqb c sep) eqn:Hc.
    + intros [<-|Hin]; [reflexivity | apply IH, Hin].
    + destruct (Str.split sep s) as [|q qs]; [congruence|].
      intros [<-|Hin].
      * simpl. rewrite Hc. apply IH. left. reflexivity.
      * apply IH. right. exact Hin.
Qed.

Lemma contains_rev_onto c s acc :
  Str.contains c (Str.rev_onto s acc) = Str.contains c s || Str.contains c acc.
Proof.
  revert acc. induction s as [|d s IH]; intros acc; simpl; [reflexivity|].
  rewrite IH. simpl. destruct (Ascii.eqb d c), (Str.contains c s); reflexivity.
Qed.

Lemma contains_rev c s : Str.contains c (Str.rev s) = Str.contains c s.
Proof. unfold Str.rev. rewrite contains_rev_onto. simpl. apply orb_false_r. Qed.

Lemma strip_any_contains c ps s r :
  Str.strip_any ps s = Some r -> Str.contains c s = false -> Str.contains c r = false.
Proof.
  intros Hs Hc. destruct (strip_any_Some _ _ _ Hs) as (p & _ & ->).
  rewrite contains_append in Hc. apply orb_false_iff in Hc. tauto.
Qed.

Lemma trim_fuel_contains c ws n : forall s,
  Str.contains c s = false -> Str.contains c (Str.trim_fuel ws n s) = false.
Proof.
  induction n as [|n IH]; intros s Hc; cbn [Str.trim_fuel]; [exact Hc|].
  destruct (Str.strip_any ws s) as [r|] eqn:E; [|exact Hc].
  apply IH. eapply strip_any_contains; eassumption.
Qed.

Lemma trim_contains c s : Str.contains c s = false -> Str.contains c (Str.trim s) = false.
Proof.
  intros Hc. unfold Str.trim, Str.trimEnd, Str.trimStart.
  rewrite contains_rev. apply trim_fuel_contains. rewrite contains_rev.
  apply trim_fuel_contains, Hc.
Qed.

Section Sign.
Local Open Scope Q_scope.

Lemma rn_not_neg q : 0 <= q -> Num.is_neg (Num.rn q) = false.
Proof.
  intros Hq. unfold Num.rn.
  assert (Hs : Num.Qltb q 0 = false) by (apply Qltb_ge, Hq).
  rewrite Hs. destruct (Qle_bool _ _); [reflexivity|].
  cbn [Num.is_neg]. apply Qltb_ge. rewrite Qred_correct.
  apply round_pos_nonneg, Qabs_nonneg.
Qed.
End Sign.

Lemma digit_in_nonneg base c d : Num.digit_in base c = Some d -> 0 <= d.
Proof.
  unfold Num.digit_in. set (n := Z.of_N (N_of_ascii c)).
  destruct ((48 <=? n) && (n <=? 57)) eqn:E1.
  - apply andb_true_iff in E1 as [H1 _]. apply Z.leb_le in H1.
    destruct (n - 48 <? base); [|discriminate]. intros [= <-]. lia.
  - destruct ((97 <=? n) && (n <=? 122)) eqn:E2.
    + apply andb_true_iff in E2 as [H1 _]. apply Z.leb_le in H1.
      destruct (n - 87 <? base); [|discriminate]. intros [= <-]. lia.
    + destruct ((65 <=? n) && (n <=? 90)) eqn:E3; [|discriminate].
      apply andb_true_iff in E3 as [H1 _]. apply Z.leb_le in H1.
      destruct (n - 55 <? base); [|discriminate]. intros [= <-]. lia.
Qed.

Lemma value_in_nonneg base s : forall acc z,
  0 <= base -> 0 <= acc -> Num.value_in base s acc = Some z -> 0 <= z.
Proof.
  induction s as [|c s IH]; intros acc z Hb Hacc; cbn [Num.value_in].
  - intros [= <-]. exact Hacc.
  - destruct (Num.digit_in base c) as [d|] eqn:E; [|discriminate].
    apply digit_in_nonneg in E. apply IH; [exact Hb | nia].
Qed.

Lemma nondecimal_nonneg t z : Num.nondecimal t = Some z -> 0 <= z.
Proof.
  unfold Num.nondecimal. destruct t as [|a [|x [|c rest]]]; try discriminate;
    destruct a as [[] [] [] [] [] [] [] []]; try discriminate.
  destruct (_ || _); [apply value_in_nonneg; lia|].
  destruct (_ || _); [apply value_in_nonneg; lia|].
  destruct (_ || _); [apply value_in_nonneg; lia | discriminate].
Qed.

Lemma dec_value_nonneg s : forall acc, 0 <= acc -> 0 <= Dec.value s acc.
Proof.
  induction s as [|c s IH]; intros acc Hacc; cbn [Dec.value]; [exact Hacc|].
  unfold Dec.digit_val. set (n := Z.of_N (N_of_ascii c)).
  destruct ((48 <=? n) && (n <=? 57)) eqn:E; [|exact Hacc].
  apply andb_true_iff in E as [H1 _]. apply Z.leb_le in H1. apply IH. lia.
Qed.

Lemma unsigned_decimal_nonneg s q : Num.unsigned_decimal s = Some q -> (0 <= q)%Q.
Proof.
  unfold Num.unsigned_decimal.
  destruct (Str.span Dec.is_digit s) as [ip r1].
  destruct (match r1 with String "." r => _ | _ => _ end) as [fp r2].
  destruct (_ && _); [discriminate|].
  destruct (Num.exponent r2) as [e|]; [|discriminate].
  intros [= <-]. apply Qmult_le_0_compat.
  - rewrite <- (Zle_Qle 0). apply dec_value_nonneg. reflexivity.
  - apply Qlt_le_weak, Qpower_0_lt. reflexivity.
Qed.

Lemma sign_of_no_hyphen t :
  Str.contains Str.hyphen t = false -> fst (Num.sign_of t) = false.
Proof.
  destruct t as [|c t]; [reflexivity|]. simpl.
  intros H. apply orb_false_iff in H as [Hc _].
  unfold Num.sign_of. destruct c as [[] [] [] [] [] [] [] []]; try reflexivity.
  discriminate.
Qed.

(** A text without a hyphen never coerces to a negative number. *)
Lemma ofString_not_neg s :
  Str.contains Str.hyphen s = false -> Num.is_neg (Num.ofString s) = false.
Proof.
  intros Hs. unfold Num.ofString. apply trim_contains in Hs.
  set (t := Str.trim s) in *.
  destruct (String.eqb t EmptyString); [reflexivity|].
  destruct (Num.nondecimal t) as [z|] eqn:En.
  - apply rn_not_neg. apply nondecimal_nonneg in En.
    rewrite <- (Zle_Qle 0). exact En.
  - pose proof (sign_of_no_hyphen t Hs) as Hsign.
    destruct (Num.sign_of t) as [neg body]. simpl in Hsign. subst neg.
    destruct (String.eqb body "Infinity"); [reflexivity|].
    destruct (Num.unsigned_decimal body) as [q|] eqn:Eq; [|reflexivity].
    apply rn_not_neg. apply unsigned_decimal_nonneg in Eq. exact Eq.
Qed.

(** The number a verified token stands for is coerced from a part that
    holds no hyphen, so it is not negative. *)
Lemma verify_not_negative env token n :
  verify env token = Ok n -> Num.is_neg n = false.
Proof.
  unfold verify. destruct (createFlagId env _) as [minted|e]; [|discriminate].
  destruct (negb _); [discriminate|]. intros [= <-].
  unfold index. destruct (nth_error _ 1) as [id|] eqn:E; [|reflexivity].
  cbn [ToNumber]. apply ofString_not_neg.
  apply (split_parts_no_sep Str.hyphen token). eapply nth_error_In, E.
Qed.

(** ** More on the video id *)

Lemma parseYouTubeId_Ok_inv content v :
  parseYouTubeId content = Ok v ->
  exists i tok,
    v = Text tok
    /\ occurrence_at content i tok
    /\ (forall j tok', (j < i)%nat -> ~ occurrence_at content j tok')
    /\ tok <> EmptyString
    /\ Str.all is_id_char tok = true.
Proof.
  unfold parseYouTubeId.
  destruct (search_leftmost content)
    as [[Hnone _]|(a & b & t & Hab & Hm & Hs & Hmin)].
  - rewrite Hnone. discriminate.
  - rewrite Hs. cbn [group1]. intros [= <-].
    pose proof (proj1 (match_here_key_value b t) Hm) as Hkv.
    exists (String.length a), t. split; [reflexivity|].
    split; [exists a, b; auto|].
    split.
    + intros j tok' Hj (pre & s & Hc & Hlen & Hkv').
      apply match_here_key_value in Hkv'.
      rewrite (Hmin pre s Hc) in Hkv' by lia. discriminate.
    + destruct Hkv as (ws & q & rest & _ & _ & _ & Hne & Hall & _). auto.
Qed.

(** Whenever extraction answers, the answer is a string, never
    [undefined]: the token of the leftmost occurrence of the key, not empty
    and made of the characters of the class only. *)
Theorem parseYouTubeId_answer content v :
  parseYouTubeId content = Ok v ->
  exists i tok,
    v = Text tok
    /\ occurrence_at content i tok
    /\ (forall j tok', (j < i)%nat -> ~ occurrence_at content j tok')
    /\ tok <> EmptyString
    /\ Str.all is_id_char tok = true.
Proof. apply parseYouTubeId_Ok_inv. Qed.

Lemma parseYouTubeId_answer_witness :
  parseYouTubeId quoted_example = Ok (Text "abc123")
  /\ exists i tok,
       Text "abc123" = Text tok
       /\ occurrence_at quoted_example i tok
       /\ (forall j tok', (j < i)%nat -> ~ occurrence_at quoted_example j tok')
       /\ tok <> EmptyString
       /\ Str.all is_id_char tok = true.
Proof.
  assert (Hp : parseYouTubeId quoted_example = Ok (Text "abc123"))
    by (vm_compute; reflexivity).
  split; [exact Hp|].
  exact (parseYouTubeId_answer quoted_example _ Hp).
Defined.

Lemma parseYouTubeId_Throw_iff content :
  parseYouTubeId content = Throw parse_error
  <-> forall i tok, ~ occurrence_at content i tok.
Proof.
  unfold parseYouTubeId.
  destruct (search_leftmost content)
    as [[Hnone Hall]|(a & b & t & Hab & Hm & Hs & Hmin)].
  - rewrite Hnone. split; [|reflexivity].
    intros _ i tok (pre & s & Hc & _ & Hkv).
    apply match_here_key_value in Hkv. rewrite (Hall pre s Hc) in Hkv. discriminate.
  - rewrite Hs. split; [discriminate|].
    intros Hno. exfalso. apply (Hno (String.length a) t).
    exists a, b. split; [exact Hab|]. split; [reflexivity|].
    apply match_here_key_value, Hm.
Qed.

(** Extraction fails exactly when the content holds no occurrence of the
    key followed by a token: a key with nothing usable after it fails like
    a missing key. *)
Theorem parseYouTubeId_fails_iff content :
  parseYouTubeId content = Throw parse_error
  <-> forall i tok, ~ occurrence_at content i tok.
Proof. apply parseYouTubeId_Throw_iff. Qed.

(** A key whose value is empty quotes is such a content. *)
Example parseYouTubeId_key_without_token :
  parseYouTubeId "youtube: ''" = Throw parse_error.
Proof. vm_compute. reflexivity. Qed.

(** ** The flag routes together *)

Section Routes.
Context {S : Type} `{Grist S}.

(** A flag that was created can be deleted with the token that was
    answered: when the store assigns a non-negative safe integer id to the
    row, the [POST] handler answers a token, and the [DELETE] handler given
    that token, under any path and in any later state of the store, asks
    for the deletion of exactly that id. *)
Theorem create_then_delete_roundtrip env secret params body (st st1 : S) z ids :
  secret_of env secret -> 0 <= z <= 2 ^ 53 - 1 ->
  addRecords "Flags" [row_of params body] st = (Ok (Num.of_Z z :: ids), st1) ->
  exists token,
    post_flags env params body st = (Ok token, st1)
    /\ forall params' (st2 : S),
         flagId params' = token ->
         delete_flags env params' st2
         = finish (deleteRecords "Flags" [Num.of_Z z] st2).
Proof.
  intros Hs Hz Hadd.
  exists ("flag-" +:+ Dec.of_nat_Z z +:+ "-" +:+ sign secret (Dec.of_nat_Z z)).
  split.
  - unfold post_flags. fold (vtt_of params). fold (row_of params body).
    rewrite Hadd. cbn [index_num nth_error].
    rewrite (createFlagId_ok _ _ _ Hs).
    change (ToString (Num (Num.of_Z z))) with (Num.toString (Num.of_Z z)).
    rewrite toString_nat by exact Hz. reflexivity.
  - intros params' st2 Htok. rewrite delete_flags_verify, Htok.
    change ("flag-" +:+ Dec.of_nat_Z z +:+ "-" +:+ sign secret (Dec.of_nat_Z z))
      with ("flag" +:+ "-" +:+ Dec.of_nat_Z z +:+ "-" +:+ sign secret (Dec.of_nat_Z z)).
    rewrite (verify_minted env secret z Hs Hz) by reflexivity. reflexivity.
Qed.

(** Without a secret no token is minted and no flag is deleted, and a
    created row is left behind: minting throws for every id; the [DELETE]
    handler throws before it reaches the store, whatever the token; the
    [POST] handler has already inserted the row when it throws. *)
Theorem flag_routes_without_secret env :
  no_secret env ->
  (forall id, createFlagId env id = Throw secret_error)
  /\ (forall params (st : S), delete_flags env params st = (Throw secret_error, st))
  /\ (forall params body (st st1 : S) result,
        addRecords "Flags" [row_of params body] st = (Ok result, st1) ->
        post_flags env params body st = (Throw secret_error, st1)).
Proof.
  intros Hno.
  assert (Hmint : forall id, createFlagId env id = Throw secret_error).
  { intros id. unfold createFlagId. destruct Hno as [-> | ->]; reflexivity. }
  split; [exact Hmint|]. split.
  - intros params st. unfold delete_flags. rewrite Hmint. reflexivity.
  - intros params body st st1 result Hadd.
    unfold post_flags. fold (vtt_of params). fold (row_of params body).
    rewrite Hadd, Hmint. reflexivity.
Qed.
End Routes.

Lemma create_then_delete_roundtrip_witness :
  secret_of env0 "s3cret" /\ 0 <= 1 <= 2 ^ 53 - 1
  /\ addRecords "Flags"
       [row_of (params0 "") {| body_timestamp := Num.of_Z 65000; body_text := "typo" |}]
       ([] : list Call)
     = (Ok (Num.of_Z 1 :: []),
        [AddRecords "Flags"
           [row_of (params0 "")
              {| body_timestamp := Num.of_Z 65000; body_text := "typo" |}]])
  /\ exists token,
       post_flags env0 (params0 "")
         {| body_timestamp := Num.of_Z 65000; body_text := "typo" |} ([] : list Call)
       = (Ok token,
          [AddRecords "Flags"
             [row_of (params0 "")
                {| body_timestamp := Num.of_Z 65000; body_text := "typo" |}]])
       /\ forall params' (st2 : list Call),
            flagId params' = token ->
            delete_flags env0 params' st2
            = finish (deleteRecords "Flags" [Num.of_Z 1] st2).
Proof.
  assert (Hs : secret_of env0 "s3cret") by (split; [reflexivity | discriminate]).
  assert (Hz : 0 <= 1 <= 2 ^ 53 - 1) by lia.
  assert (Hadd : addRecords "Flags"
       [row_of (params0 "") {| body_timestamp := Num.of_Z 65000; body_text := "typo" |}]
       ([] : list Call)
     = (Ok (Num.of_Z 1 :: []),
        [AddRecords "Flags"
           [row_of (params0 "")
              {| body_timestamp := Num.of_Z 65000; body_text := "typo" |}]]))
    by reflexivity.
  split; [exact Hs|]. split; [exact Hz|]. split; [exact Hadd|].
  exact (create_then_delete_roundtrip env0 "s3cret" (params0 "") _ [] _ 1 [] Hs Hz Hadd).
Defined.

Lemma flag_routes_without_secret_witness :
  no_secret (∅ : Env)
  /\ (forall id, createFlagId ∅ id = Throw secret_error)
  /\ (forall params (st : list Call),
        delete_flags ∅ params st = (Throw secret_error, st))
  /\ (forall params body (st st1 : list Call) result,
        addRecords "Flags" [row_of params body] st = (Ok result, st1) ->
        post_flags ∅ params body st = (Throw secret_error, st1)).
Proof.
  assert (Hno : no_secret (∅ : Env)) by (left; reflexivity).
  split; [exact Hno|].
  exact (flag_routes_without_secret ∅ Hno).
Defined.

(** The handler issues nothing or one deletion, of a single id that is not
    negative, from the table of the flags. *)
Theorem delete_never_negative env params (st : list Call) :
  snd (delete_flags env params st) = st
  \/ exists n,
       snd (delete_flags env params st) = List.app st [DeleteRecords "Flags" [n]]
       /\ Num.is_neg n = false.
Proof.
  rewrite delete_flags_verify.
  destruct (verify env (flagId params)) as [n|e] eqn:Hv; [|left; reflexivity].
  right. exists n. split; [reflexivity|]. eapply verify_not_negative, Hv.
Qed.

(** ** The documents *)

Section Reading.
Context {W : Type} `{Content W}.

(** Where a document is read from. With the local override in force the
    file under that directory is read and nothing is fetched. Without it
    the raw url of the repository is fetched: a failed fetch is passed on,
    an answer that is not [ok] throws a message that names the url, the
    status code in decimal and the status text, and an [ok] answer gives
    its text. *)
Lemma getRawGitHubFile_cases env repo branch file (w : W) :
  (forall dir, local_override env dir ->
     getRawGitHubFile env repo branch file w
     = readFileSync (dir +:+ "/" +:+ file) "utf-8" w)
  /\ (no_override env ->
      match fetch (raw_url repo branch file) w with
      | (Throw e, w') => getRawGitHubFile env repo branch file w = (Throw e, w')
      | (Ok response, w') =>
          (response_ok response = true ->
           getRawGitHubFile env repo branch file w = (response_text response, w'))
          /\ (response_ok response = false ->
              forall code, 0 <= code <= 2 ^ 53 - 1 ->
              response_status response = Num.of_Z code ->
              getRawGitHubFile env repo branch file w
              = (Throw ("Failed to fetch " +:+ raw_url repo branch file +:+ ": "
                          +:+ Dec.of_nat_Z code +:+ " "
                          +:+ response_statusText response), w'))
      end).
Proof.
  split.
  - intros dir [Hdir Hne]. unfold getRawGitHubFile. rewrite Hdir.
    destruct (String.eqb_spec dir EmptyString); [contradiction | reflexivity].
  - intros Hno.
    assert (Heq : getRawGitHubFile env repo branch file w
                  = match fetch (raw_url repo branch file) w with
                    | (Throw e, w') => (Throw e, w')
                    | (Ok response, w') =>
                        if negb (response_ok response)
                        then (Throw ("Failed to fetch " +:+ raw_url repo branch file
                                       +:+ ": "
                                       +:+ Num.toString (response_status response)
                                       +:+ " " +:+ response_statusText response), w')
                        else (response_text response, w')
                    end).
    { unfold getRawGitHubFile. destruct Hno as [-> | ->]; reflexivity. }
    rewrite Heq. destruct (fetch (raw_url repo branch file) w) as [[response|e] w'];
      [|reflexivity].
    split.
    + intros ->. reflexivity.
    + intros -> code Hcode ->. cbn [negb]. rewrite toString_nat by exact Hcode.
      reflexivity.
Qed.

(** What [GET /videos] answers. A failure to read the document of the
    video is passed on. A document without an occurrence of the key fails
    with the extraction error. Otherwise the answer holds the watch url of
    the token of the leftmost occurrence, a token that is not empty and made
    of the characters of the class only, and the caption and flag paths of
    the same event, slug and language; the language plays no part in what
    is read. *)
Theorem get_videos_cases env params (w : W) :
  match getRawGitHubFile env videos_repo videos_branch (video_document params) w with
  | (Throw e, w') => get_videos env params w = (Throw e, w')
  | (Ok content, w') =>
      ((forall i tok, ~ occurrence_at content i tok)
       /\ get_videos env params w = (Throw parse_error, w'))
      \/ exists i tok,
           occurrence_at content i tok
           /\ (forall j tok', (j < i)%nat -> ~ occurrence_at content j tok')
           /\ tok <> EmptyString
           /\ Str.all is_id_char tok = true
           /\ get_videos env params w
              = (Ok {| videoUrl := "https://www.youtube.com/watch?v=" +:+ tok;
                       vttUrl := "/captions/" +:+ event params +:+ "/"
                                   +:+ slug params +:+ "/" +:+ lang params;
                       flaggingUrl := "/flags/" +:+ event params +:+ "/"
                                        +:+ slug params +:+ "/" +:+ lang params |},
                 w')
  end.
Proof.
  unfold get_videos. fold (video_document params). fold videos_repo videos_branch.
  destruct (getRawGitHubFile env videos_repo videos_branch (video_document params) w)
    as [[content|e] w']; [|reflexivity].
  destruct (parseYouTubeId content) as [v|e] eqn:Hp.
  - right. destruct (parseYouTubeId_Ok_inv content v Hp)
      as (i & tok & -> & Hocc & Hleft & Hne & Hall).
    exists i, tok. repeat (split; [assumption|]). reflexivity.
  - left.
    assert (He : e = parse_error).
    { unfold parseYouTubeId in Hp.
      destruct (Regex.search youtube_pattern content); [discriminate|].
      injection Hp as <-. reflexivity. }
    subst e. split; [apply parseYouTubeId_Throw_iff, Hp | reflexivity].
Qed.

(** A flag names the caption file it is about: the [vtt] field of the row
    the [POST] handler stores is, after the directory of the videos, the
    file the caption route reads for the same event, slug and language. *)
Theorem flag_names_caption_file env params body (st : list Call) (w : W) :
  exists row,
    snd (post_flags env params body st) = List.app st [AddRecords "Flags" [row]]
    /\ get_captions env params w
       = getRawGitHubFile env videos_repo videos_branch
           ("data/videos/" +:+ vtt row) w.
Proof.
  exists (row_of params body). split; reflexivity.
Qed.
End Reading.

(** The video route on the example world, from the local file and from a
    url the world does not hold. *)
Example get_videos_local :
  get_videos (H := library_world lib0) env_local (params0 "") []
  = (Ok {| videoUrl := "https://www.youtube.com/watch?v=abc123";
           vttUrl := "/captions/bkkjs22/intro/en";
           flaggingUrl := "/flags/bkkjs22/intro/en" |},
     [ReadFile "/srv/videos/data/videos/bkkjs22/intro.md" "utf-8"]).
Proof. vm_compute. reflexivity. Qed.

Example get_videos_remote_missing :
  get_videos (H := library_world lib0) ∅ (params0 "") []
  = (Throw "Failed to fetch https://raw.githubusercontent.com/creatorsgarten/videos/refs/heads/main/data/videos/bkkjs22/intro.md: 404 Not Found",
     [Fetch "https://raw.githubusercontent.com/creatorsgarten/videos/refs/heads/main/data/videos/bkkjs22/intro.md"]).
Proof. vm_compute. reflexivity. Qed.

(** ** The time formatter below zero *)

Section Negative.
Local Open Scope Q_scope.
Import Num.

(** Rounding a rational between minus a million and 0 moves it by less
    than a billionth and leaves it below 0 or at 0. *)
Lemma rn_close_neg q :
  q < 0 -> -1000000 <= q ->
  exists r, rn q = Finite r /\ r <= 0 /\ q - (1 # 1000000000) <= r
            /\ r <= q + (1 # 1000000000).
Proof.
  intros Hq Hmin. unfold rn.
  assert (Hs : Qltb q 0 = true) by (apply Qltb_lt, Hq).
  assert (Habs : Qabs q == - q) by (apply Qabs_neg; lra).
  assert (Hpos : 0 < Qabs q) by lra.
  pose proof (round_pos_error (Qabs q) Hpos) as Herr.
  pose proof (round_pos_nonneg (Qabs q) (Qabs_nonneg q)) as Hr0.
  set (r := round_pos (Qabs q)) in *.
  apply Qabs_diff_Qle_condition in Herr.
  pose proof pow2_1075 as Ht. rewrite pow2_53 in Herr. unfold eps, tiny in *.
  rewrite Hs, Qle_bool_gt.
  - exists (Qred (- r)). split; [reflexivity|]. rewrite Qred_correct.
    repeat split; lra.
  - assert (H1024 : inject_Z (2 ^ 21) <= pow2 1024).
    { rewrite <- pow2_inject by lia. apply pow2_le. lia. }
    change (inject_Z (2 ^ 21)) with 2097152 in H1024. lra.
Qed.

Lemma padStart_long n c s :
  (n <= String.length s)%nat -> Str.padStart n c s = s.
Proof.
  intros Hn. unfold Str.padStart.
  replace (n - String.length s)%nat with 0%nat by lia. reflexivity.
Qed.

(** The hours of a negative offset print with a minus sign. *)
Lemma hours_negative n :
  (-360000000 < n < 0)%Z ->
  exists rest,
    Str.padStart 2 zero_char
      (toString (floor (div (div (of_Z n) n1000) n3600)))
    = String Str.hyphen rest.
Proof.
  intros Hn.
  assert (Hin : exists r, div (of_Z n) n1000 = Finite r
                 /\ inject_Z n * (1 # 1000) - (1 # 1000000000) <= r
                 /\ r <= inject_Z n * (1 # 1000) + (1 # 1000000000)).
  { unfold n1000, of_Z, div. rewrite (of_Z_nonzero 1000) by lia.
    change (inject_Z 1000) with 1000.
    assert (Hd : inject_Z n / 1000 == inject_Z n * (1 # 1000)) by reflexivity.
    assert (Hn1 : inject_Z n <= -1)
      by (change (-1) with (inject_Z (-1)); rewrite <- Zle_Qle; lia).
    assert (Hn2 : -360000000 <= inject_Z n)
      by (change (-360000000) with (inject_Z (-360000000)); rewrite <- Zle_Qle; lia).
    destruct (rn_close_neg (inject_Z n / 1000)) as (r & Hr & Hr0 & Hlo & Hhi);
      [rewrite Hd; lra | rewrite Hd; lra |].
    rewrite Hd in Hlo, Hhi. exists r. auto. }
  destruct Hin as (r & Hr & Hlo & Hhi). rewrite Hr.
  unfold n3600, of_Z, div. change (inject_Z 3600) with 3600.
  assert (Hn1 : inject_Z n <= -1)
    by (change (-1) with (inject_Z (-1)); rewrite <- Zle_Qle; lia).
  assert (Hn2 : -360000000 <= inject_Z n)
    by (change (-360000000) with (inject_Z (-360000000)); rewrite <- Zle_Qle; lia).
  change (Qeq_bool 3600 0) with false. cbv iota.
  assert (Hd2 : r / 3600 == r * (1 # 3600)) by reflexivity.
  destruct (rn_close_neg (r / 3600)) as (x & Hx & Hx0 & Hxlo & Hxhi);
    [rewrite Hd2; lra | rewrite Hd2; lra |].
  rewrite Hd2 in Hxlo, Hxhi. rewrite Hx. cbn [floor].
  set (k := Qfloor x).
  assert (Hk : (-102 <= k <= -1)%Z).
  { pose proof (Qfloor_le x) as H1. pose proof (Qlt_floor x) as H2. fold k in H1, H2.
    rewrite inject_Z_plus in H2. change (inject_Z 1) with 1 in H2.
    assert (Ha : inject_Z k < 0) by lra.
    assert (Hb : -102 < inject_Z k + 1) by lra.
    change 0 with (inject_Z 0) in Ha. change (-102) with (inject_Z (-102)) in Hb.
    change 1 with (inject_Z 1) in Hb. rewrite <- inject_Z_plus in Hb.
    rewrite <- Zlt_Qlt in Ha, Hb. lia. }
  change (Finite (inject_Z k)) with (of_Z k).
  rewrite toString_int by lia. unfold Dec.of_Z.
  replace (k <? 0)%Z with true by (symmetry; apply Z.ltb_lt; lia).
  exists (Dec.of_nat_Z (- k)). apply padStart_long.
  pose proof (of_nat_Z_nonempty (- k)) as Hne.
  destruct (Dec.of_nat_Z (- k)); [congruence | simpl; lia].
Qed.
End Negative.

(** A negative whole millisecond offset, down to minus 100 hours, is
    never stored as a time of day: the timestamp of the row handed to the
    store starts with a minus sign. *)
Theorem stored_timestamp_negative_sign {S : Type} `{Grist S} env params text n (st : S) :
  -360000000 < n < 0 ->
  exists rest,
    post_flags env params {| body_timestamp := Num.of_Z n; body_text := text |} st
    = reply env
        (addRecords "Flags"
           [{| vtt := vtt_of params; timestamp := String Str.hyphen rest;
               text := text |}] st).
Proof.
  intros Hn. destruct (hours_negative n Hn) as (rest & Hh).
  eexists. unfold post_flags, formatTime. cbn [body_timestamp body_text].
  rewrite Hh. rewrite append_cons. reflexivity.
Qed.

Lemma stored_timestamp_negative_sign_witness :
  -360000000 < -1 < 0
  /\ exists rest,
       post_flags env0 (params0 "")
         {| body_timestamp := Num.of_Z (-1); body_text := "typo" |} ([] : list Call)
       = reply env0
           (addRecords "Flags"
              [{| vtt := vtt_of (params0 ""); timestamp := String Str.hyphen rest;
                  text := "typo" |}] []).
Proof.
  assert (Hn : -360000000 < -1 < 0) by lia.
  split; [exact Hn|].
  exact (stored_timestamp_negative_sign env0 (params0 "") "typo" (-1) [] Hn).
Defined.
